(** * Actuator provider (components/actuator-provider/src/main.c)

    A shallow embedding of the decision logic of the zenoh actuator
    provider: the locator validator [is_valid_locator], the confirmation
    publisher [pub_status], the signal classifier [attachment_handler], the
    Wi-Fi retry automaton [event_handler], the receive callback
    [data_handler] and the start-up sequence [app_main].

    The C module keeps its state in file-level statics and talks to the
    outside world through library calls.  Here the statics and the LED pin
    live in one record [world]; every library call that is visible from
    outside (logging, GPIO, zenoh, Wi-Fi) is appended to the [trace] of that
    record, in program order. *)

From Stdlib Require Import ZArith List Bool Ascii String Lia.
Import ListNotations.

Local Open Scope string_scope.
Local Open Scope list_scope.
Local Open Scope Z_scope.

(* ================================================================== *)
(** * The C library as far as main.c uses it *)
(* ================================================================== *)

Module CLib.

(** The terminator of a C string. *)
Definition NUL : ascii := Ascii.zero.

(** [unsigned char] value of a character, as [strncmp] compares them. *)
Definition uchar (c : ascii) : Z := Z.of_nat (nat_of_ascii c).

(** Reading the character under a [char *].  A Rocq [string] stands for the
    bytes in front of the terminator of a literal, so reading at its end
    yields [NUL]. *)
Definition peek (s : string) : ascii :=
  match s with
  | EmptyString => NUL
  | String c _ => c
  end.

Definition advance (s : string) : string :=
  match s with
  | EmptyString => EmptyString
  | String _ s' => s'
  end.

(** [strncmp(s1, s2, n)]: compares at most [n] characters and stops at the
    first difference or at a terminator. *)
Fixpoint strncmp (s1 s2 : string) (n : nat) : Z :=
  match n with
  | O => 0
  | S n' =>
      let c1 := peek s1 in
      let c2 := peek s2 in
      if negb (Ascii.eqb c1 c2) then uchar c1 - uchar c2
      else if Ascii.eqb c1 NUL then 0
      else strncmp (advance s1) (advance s2) n'
  end.

(** [strcmp(s1, s2)]: as [strncmp] without the bound. *)
Definition strcmp (s1 s2 : string) : Z :=
  strncmp s1 s2 (S (String.length s1)).

(** The characters a C function sees behind a [char *]: everything in front
    of the first terminator. *)
Fixpoint c_str (s : string) : list ascii :=
  match s with
  | EmptyString => []
  | String c s' => if Ascii.eqb c NUL then [] else c :: c_str s'
  end.

(** A Rocq string is the content of a C string when it holds no
    terminator. *)
Definition is_c_string (s : string) : Prop :=
  ~ In NUL (list_ascii_of_string s).

(** [snprintf(buffer, size, "%s", value)]: copies the C string [value],
    cut to [size - 1] characters. *)
Definition snprintf_s (size : nat) (value : string) : string :=
  string_of_list_ascii (firstn (Nat.pred size) (c_str value)).

(** Two's-complement wrap-around of a C [int]. *)
Definition INT_MAX : Z := 2147483647.
Definition wrap_int (z : Z) : Z := (z + 2 ^ 31) mod 2 ^ 32 - 2 ^ 31.

End CLib.

Import CLib.

(* ================================================================== *)
(** * POSIX extended regular expressions ([<regex.h>])

    [is_valid_locator] compiles a pattern with [regcomp] and runs it with
    [regexec].  The pattern is parsed here as main.c hands it over; the
    compiled form is matched with derivatives.  [REG_NOSUB] is in force, so
    only the existence of a match is observable. *)
(* ================================================================== *)

Module Regex.

(** A bracket expression or a single character is a list of inclusive
    character ranges. *)
Definition ranges := list (ascii * ascii).

Inductive regex : Type :=
| Void : regex
| Eps : regex
| Sym : ranges -> regex
| Cat : regex -> regex -> regex
| Alt : regex -> regex -> regex
| Star : regex -> regex.

Definition in_range (c : ascii) (r : ascii * ascii) : bool :=
  (nat_of_ascii (fst r) <=? nat_of_ascii c)%nat
  && (nat_of_ascii c <=? nat_of_ascii (snd r))%nat.

Definition in_ranges (c : ascii) (rs : ranges) : bool :=
  existsb (in_range c) rs.

(** ** Derived forms *)

Definition lit (c : ascii) : regex := Sym [(c, c)].

(** [.] matches every character of a C string. *)
Definition any : regex := Sym [("001"%char, "255"%char)].

Definition opt (r : regex) : regex := Alt Eps r.

Definition plus (r : regex) : regex := Cat r (Star r).

Fixpoint power (r : regex) (n : nat) (k : regex) : regex :=
  match n with
  | O => k
  | S n' => Cat r (power r n' k)
  end.

(** [r{m,n}]: [m] copies of [r], then up to [n - m] more. *)
Definition bounded (r : regex) (m n : nat) : regex :=
  power r m (power (opt r) (n - m) Eps).

(** [r{m,}] *)
Definition at_least (r : regex) (m : nat) : regex :=
  power r m (Star r).

(** ** Matching by derivatives *)

Fixpoint nullable (r : regex) : bool :=
  match r with
  | Void => false
  | Eps => true
  | Sym _ => false
  | Cat r1 r2 => nullable r1 && nullable r2
  | Alt r1 r2 => nullable r1 || nullable r2
  | Star _ => true
  end.

Fixpoint deriv (c : ascii) (r : regex) : regex :=
  match r with
  | Void => Void
  | Eps => Void
  | Sym rs => if in_ranges c rs then Eps else Void
  | Cat r1 r2 =>
      if nullable r1
      then Alt (Cat (deriv c r1) r2) (deriv c r2)
      else Cat (deriv c r1) r2
  | Alt r1 r2 => Alt (deriv c r1) (deriv c r2)
  | Star r1 => Cat (deriv c r1) (Star r1)
  end.

Fixpoint matches (r : regex) (s : list ascii) : bool :=
  match s with
  | [] => nullable r
  | c :: s' => matches (deriv c r) s'
  end.

(** ** The compiled pattern *)

(** What [regcomp] leaves in a [regex_t]: the body and whether the pattern
    is tied to the start ([^]) and to the end ([$]) of the subject. *)
Record regex_t : Type := mk_regex_t {
  re_bol : bool;
  re_eol : bool;
  re_body : regex
}.

Definition REG_NOMATCH : Z := 1.

(** [regexec(&reg, str, 0, NULL, 0)]: 0 when some part of the C string
    [str] matches, the whole of it from an anchored end, [REG_NOMATCH]
    otherwise. *)
Definition regexec (reg : regex_t) (str : string) : Z :=
  let before := if re_bol reg then Eps else Star any in
  let after := if re_eol reg then Eps else Star any in
  if matches (Cat before (Cat (re_body reg) after)) (c_str str)
  then 0
  else REG_NOMATCH.

(** ** Parsing the pattern ([regcomp] with [REG_EXTENDED]) *)

Definition ch_eq (c : ascii) (d : string) : bool :=
  match d with
  | String d0 EmptyString => Ascii.eqb c d0
  | _ => false
  end.

(** The escape character of a pattern. *)
Definition backslash : ascii := "092"%char.

Definition is_digit (c : ascii) : bool :=
  in_range c ("0"%char, "9"%char).

Definition digit_value (c : ascii) : nat :=
  (nat_of_ascii c - nat_of_ascii "0"%char)%nat.

(** Decimal number at the head of [s]; [None] when [s] starts with no
    digit. *)
Fixpoint parse_number (s : list ascii) (acc : option nat)
  : option nat * list ascii :=
  match s with
  | c :: s' =>
      if is_digit c
      then parse_number s'
             (Some (10 * match acc with Some a => a | None => 0 end
                    + digit_value c)%nat)
      else (acc, s)
  | [] => (acc, s)
  end.

(** Items of a bracket expression after the opening bracket: single
    characters and ranges [lo-hi]; a hyphen in front of the closing bracket
    stands for itself.  Negation and character classes are not part of the
    subset. *)
Fixpoint parse_bracket (s : list ascii) (acc : ranges)
  : option (regex * list ascii) :=
  match s with
  | [] => None
  | c :: s1 =>
      if ch_eq c "]" then
        match acc with
        | [] => None
        | _ => Some (Sym (rev acc), s1)
        end
      else if ch_eq c "^" || ch_eq c "[" then None
      else
        match s1 with
        | d :: hi :: s3 =>
            if ch_eq d "-" && negb (ch_eq hi "]") then
              if (nat_of_ascii c <=? nat_of_ascii hi)%nat
              then parse_bracket s3 ((c, hi) :: acc)
              else None
            else parse_bracket s1 ((c, c) :: acc)
        | _ => parse_bracket s1 ((c, c) :: acc)
        end
  end.

(** A bound [{m}], [{m,}] or [{m,n}] after the opening brace. *)
Definition parse_bound (r : regex) (s : list ascii)
  : option (regex * list ascii) :=
  match parse_number s None with
  | (Some m, c :: s1) =>
      if ch_eq c "}" then Some (bounded r m m, s1)
      else if ch_eq c "," then
        match parse_number s1 None with
        | (None, c2 :: s2) =>
            if ch_eq c2 "}" then Some (at_least r m, s2) else None
        | (Some n, c2 :: s2) =>
            if ch_eq c2 "}" && (m <=? n)%nat
            then Some (bounded r m n, s2)
            else None
        | _ => None
        end
      else None
  | _ => None
  end.

(** Repetition operators behind an atom. *)
Fixpoint parse_postfix (fuel : nat) (r : regex) (s : list ascii)
  : option (regex * list ascii) :=
  match fuel, s with
  | S fuel', c :: s1 =>
      if ch_eq c "*" then parse_postfix fuel' (Star r) s1
      else if ch_eq c "+" then parse_postfix fuel' (plus r) s1
      else if ch_eq c "?" then parse_postfix fuel' (opt r) s1
      else if ch_eq c "{" then
        match parse_bound r s1 with
        | Some (r', s2) => parse_postfix fuel' r' s2
        | None => None
        end
      else Some (r, s)
  | _, _ => Some (r, s)
  end.

Definition join (branch : regex) (alts : option regex) : regex :=
  match alts with
  | None => branch
  | Some a => Alt branch a
  end.

(** One alternation level: the branch that starts at [s], and the branches
    behind the next bar, up to a closing parenthesis, a dollar sign or the
    end of the pattern. *)
Fixpoint parse_ere (fuel : nat) (s : list ascii)
  : option (regex * option regex * list ascii) :=
  match fuel with
  | O => None
  | S fuel' =>
      match s with
      | [] => Some (Eps, None, [])
      | c :: s1 =>
          if ch_eq c ")" || ch_eq c "$" then Some (Eps, None, s)
          else if ch_eq c "|" then
            match parse_ere fuel' s1 with
            | Some (branch, alts, s2) => Some (Eps, Some (join branch alts), s2)
            | None => None
            end
          else
            let atom :=
              if ch_eq c "(" then
                match parse_ere fuel' s1 with
                | Some (branch, alts, c2 :: s2) =>
                    if ch_eq c2 ")" then Some (join branch alts, s2) else None
                | _ => None
                end
              else if ch_eq c "[" then parse_bracket s1 []
              else if ch_eq c "." then Some (any, s1)
              else if Ascii.eqb c backslash then
                match s1 with
                | e :: s2 => Some (lit e, s2)
                | [] => None
                end
              else if ch_eq c "*" || ch_eq c "+" || ch_eq c "?"
                      || ch_eq c "{" || ch_eq c "^"
              then None
              else Some (lit c, s1)
            in
            match atom with
            | None => None
            | Some (a, s2) =>
                match parse_postfix fuel' a s2 with
                | None => None
                | Some (a', s3) =>
                    match parse_ere fuel' s3 with
                    | Some (branch, alts, s4) =>
                        Some (match branch with
                              | Eps => a'
                              | _ => Cat a' branch
                              end, alts, s4)
                    | None => None
                    end
                end
            end
      end
  end.

(** [regcomp(&reg, pattern, REG_EXTENDED | REG_NOSUB)]: [inl] the compiled
    pattern, or [inr] a non-zero error code. *)
Definition REG_BADPAT : Z := 2.

Definition regcomp (pattern : string) : regex_t + Z :=
  let p := list_ascii_of_string pattern in
  let bol := match p with c :: _ => ch_eq c "^" | [] => false end in
  let p' := if bol then tl p else p in
  match parse_ere (S (List.length p')) p' with
  | Some (branch, alts, []) => inl (mk_regex_t bol false (join branch alts))
  | Some (branch, alts, [c]) =>
      if ch_eq c "$"
      then inl (mk_regex_t bol true (join branch alts))
      else inr REG_BADPAT
  | _ => inr REG_BADPAT
  end.

End Regex.

Import Regex.

(* ================================================================== *)
(** * The world of main.c: statics, the LED pin and the call trace *)
(* ================================================================== *)

Inductive esp_log_level_t : Type :=
| ESP_LOG_ERROR
| ESP_LOG_INFO
| ESP_LOG_DEBUG.

(** An argument of a log format. *)
Inductive log_arg : Type :=
| ArgStr (s : string)
| ArgU64 (n : Z)
| ArgRegerror (code : Z).

(** The calls main.c makes into ESP-IDF and zenoh-pico. *)
Inductive event : Type :=
| ELog (level : esp_log_level_t) (tag : string) (fmt : string)
       (args : list log_arg)
| EGpioSetLevel (pin : Z) (level : Z)
| EPublisherPut (payload : string) (attachment : string) (encoding : string)
| EWifiConnect
| EEventGroupSetBits (bits : Z)
| EConfigInsert (key : Z) (value : string)
| EOpen
| EDeclareSubscriber (keyexpr : string)
| EDeclarePublisher (keyexpr : string)
| ECall (name : string).

Record world : Type := mk_world {
  s_is_wifi_connected : bool;
  s_event_group_handler : Z;      (* the bits of the event group *)
  s_retry_count : Z;
  gpio_level : Z -> Z;            (* output level of each pin *)
  trace : list event
}.

Definition boot_world : world :=
  mk_world false 0 0 (fun _ => 0) [].

(** A [void] function of main.c. *)
Definition action := world -> world.

Definition seq (a b : action) : action := fun w => b (a w).
Notation "a ;; b" := (seq a b) (at level 61, right associativity).

Definition skip : action := fun w => w.

Definition emit (e : event) : action := fun w =>
  mk_world (s_is_wifi_connected w) (s_event_group_handler w)
           (s_retry_count w) (gpio_level w) (trace w ++ [e]).

Definition set_retry_count (n : Z) : action := fun w =>
  mk_world (s_is_wifi_connected w) (s_event_group_handler w)
           n (gpio_level w) (trace w).

Definition set_is_wifi_connected (b : bool) : action := fun w =>
  mk_world b (s_event_group_handler w)
           (s_retry_count w) (gpio_level w) (trace w).

Definition set_event_group (bits : Z) : action := fun w =>
  mk_world (s_is_wifi_connected w) bits
           (s_retry_count w) (gpio_level w) (trace w).

(** The tag of every log line of main.c. *)
Definition TAG : string := "ACTUATOR PROVIDER".

(** [ESP_LOGI(TAG, fmt, ...)] and [ESP_LOGE(TAG, fmt, ...)] *)
Definition ESP_LOGI (fmt : string) (args : list log_arg) : action :=
  emit (ELog ESP_LOG_INFO TAG fmt args).

Definition ESP_LOGE (fmt : string) (args : list log_arg) : action :=
  emit (ELog ESP_LOG_ERROR TAG fmt args).

(** [gpio_set_level(pin, level)]: drives the pin. *)
Definition gpio_set_level (pin level : Z) : action := fun w =>
  emit (EGpioSetLevel pin level)
    (mk_world (s_is_wifi_connected w) (s_event_group_handler w)
              (s_retry_count w)
              (fun p => if p =? pin then level else gpio_level w p)
              (trace w)).

(** [xEventGroupSetBits(s_event_group_handler, bits)] *)
Definition xEventGroupSetBits (bits : Z) : action := fun w =>
  emit (EEventGroupSetBits bits)
    (set_event_group (Z.lor (s_event_group_handler w) bits) w).

Definition esp_wifi_connect : action := emit EWifiConnect.

(** Line feed, the [\n] of the C formats. *)
Definition LF : string := String "010"%char EmptyString.

(** [PRIu64] of [<inttypes.h>]. *)
Definition PRIu64 : string := "llu".

(* ================================================================== *)
(** * config.h *)
(* ================================================================== *)

Definition BIT0 : Z := 1.
Definition WIFI_CONNECTED_BIT : Z := BIT0.

Definition GPIO_NUM_25 : Z := 25.
Definition LED_GPIO : Z := GPIO_NUM_25.

Definition KEYEXPR : string := "Vehicle/Body/Horn/IsActive".

(** [CLIENT_OR_PEER] is 0 in config.h: client mode, empty locator. *)
Definition config_h_MODE : string := "client".
Definition config_h_LOCATOR : string := EmptyString.

(* ================================================================== *)
(** * main.c *)
(* ================================================================== *)

Inductive signal_type_t : Type :=
| SIGNAL_TYPE_CURRENT_VALUE
| SIGNAL_TYPE_TARGET_VALUE
| SIGNAL_TYPE_UNKNOWN.

(** A [z_loaned_sample_t] as the callback reads it.  Payload and attachment
    are byte strings with a length of their own; they may hold any byte. *)
Record z_sample : Type := mk_sample {
  z_sample_keyexpr : string;
  z_sample_payload : string;
  z_sample_encoding : string;
  z_sample_attachment : option string;
  z_sample_timestamp : option Z
}.

(** [z_string_len] *)
Definition z_string_len (s : string) : Z := Z.of_nat (String.length s).

(** ** [is_valid_locator] *)

Definition locator_pattern : string :=
  "^tcp/([0-9]{1,3}\.){3}[0-9]{1,3}:[0-9]+#iface=[a-zA-Z0-9_-]+$".

Definition is_valid_locator (url : string) (w : world) : Z * world :=
  match regcomp locator_pattern with
  | inr compile_status =>
      (-1, ESP_LOGE ("Regex compile error: %s" ++ LF)
                    [ArgRegerror compile_status] w)
  | inl reg =>
      let result := regexec reg url in
      (result,
       if negb (result =? 0)
       then ESP_LOGE ("Regex match error: %s" ++ LF) [ArgRegerror result] w
       else w)
  end.

(** ** [pub_status] *)

Definition pub_status (value : string) : action :=
  let attachment_payload := "currentValue" in
  let buffer := snprintf_s 32 value in
  let payload := buffer in
  let encoding := "zenoh/string;utf8" in
  ESP_LOGI "Publishing message..." [] ;;
  emit (EPublisherPut payload attachment_payload encoding) ;;
  ESP_LOGI "Message published successfully" [].

(** ** [attachment_handler] *)

Definition attachment_handler (sample : z_sample) (w : world)
  : signal_type_t * world :=
  match z_sample_attachment sample with
  | Some attachment_str =>
      let w1 := ESP_LOGI ("    with attachment: %.*s" ++ LF)
                         [ArgStr attachment_str] w in
      let data := attachment_str in
      let len := String.length attachment_str in
      let result :=
        if strncmp data "currentValue" len =? 0
        then SIGNAL_TYPE_CURRENT_VALUE
        else if strncmp data "targetValue" len =? 0
        then SIGNAL_TYPE_TARGET_VALUE
        else SIGNAL_TYPE_UNKNOWN in
      (result, w1)
  | None => (SIGNAL_TYPE_UNKNOWN, w)
  end.

(** ** [data_handler] *)

Definition signal_type_eqb (a b : signal_type_t) : bool :=
  match a, b with
  | SIGNAL_TYPE_CURRENT_VALUE, SIGNAL_TYPE_CURRENT_VALUE => true
  | SIGNAL_TYPE_TARGET_VALUE, SIGNAL_TYPE_TARGET_VALUE => true
  | SIGNAL_TYPE_UNKNOWN, SIGNAL_TYPE_UNKNOWN => true
  | _, _ => false
  end.

Definition data_handler (sample : z_sample) : action := fun w =>
  let keystr := z_sample_keyexpr sample in
  let value := z_sample_payload sample in
  let encoding := z_sample_encoding sample in
  let w1 := ESP_LOGI (">> [Subscriber] Received ('%.*s': '%.*s')" ++ LF)
                     [ArgStr keystr; ArgStr value] w in
  let w2 := ESP_LOGI ("    with encoding: %.*s" ++ LF) [ArgStr encoding] w1 in
  let w3 :=
    match z_sample_timestamp sample with
    | Some ts =>
        ESP_LOGI ("    with timestamp: %" ++ PRIu64 ++ LF) [ArgU64 ts] w2
    | None => w2
    end in
  let '(signal_type, w4) := attachment_handler sample w3 in
  let w5 :=
    if signal_type_eqb signal_type SIGNAL_TYPE_CURRENT_VALUE
    then ESP_LOGI ("Received currentValue. Discarding signal." ++ LF) [] w4
    else w4 in
  if signal_type_eqb signal_type SIGNAL_TYPE_TARGET_VALUE then
    let w6 := ESP_LOGI ("Received targetValue. " ++ LF) [] w5 in
    let value_data := value in
    let value_len := z_string_len value in
    if (value_len =? 4) && (strncmp value_data "true" 4 =? 0) then
      (ESP_LOGI "Turning on LED." [] ;;
       gpio_set_level LED_GPIO 1 ;;
       pub_status "true") w6
    else if (value_len =? 5) && (strncmp value_data "false" 5 =? 0) then
      (ESP_LOGI "Turning off LED." [] ;;
       gpio_set_level LED_GPIO 0 ;;
       pub_status "false") w6
    else
      ESP_LOGI ("Received unknown value: '%.*s'" ++ LF) [ArgStr value_data] w6
  else w5.

(** The transport delivers samples one at a time, in order. *)
Fixpoint deliver (samples : list z_sample) : action :=
  match samples with
  | [] => skip
  | s :: rest => data_handler s ;; deliver rest
  end.

(** ** Wi-Fi events *)

Inductive esp_event_base_t : Type :=
| WIFI_EVENT
| IP_EVENT
| OTHER_EVENT (name : string).

Definition event_base_eqb (a b : esp_event_base_t) : bool :=
  match a, b with
  | WIFI_EVENT, WIFI_EVENT => true
  | IP_EVENT, IP_EVENT => true
  | OTHER_EVENT n, OTHER_EVENT m => String.eqb n m
  | _, _ => false
  end.

(** Event ids of [wifi_event_t] and [ip_event_t]. *)
Definition WIFI_EVENT_STA_START : Z := 2.
Definition WIFI_EVENT_STA_DISCONNECTED : Z := 5.
Definition IP_EVENT_STA_GOT_IP : Z := 0.

(** An event as the default event loop hands it to a handler. *)
Definition esp_event : Type := (esp_event_base_t * Z)%type.

Definition link_down : esp_event := (WIFI_EVENT, WIFI_EVENT_STA_DISCONNECTED).
Definition link_up : esp_event := (IP_EVENT, IP_EVENT_STA_GOT_IP).

Definition is_link_up (ev : esp_event) : bool :=
  event_base_eqb (fst ev) IP_EVENT && (snd ev =? IP_EVENT_STA_GOT_IP).

(** ** Control flow of the start-up code

    [app_main] can leave its straight line in four ways: [exit], the
    [abort] of a failed [ESP_ERROR_CHECK], a wait that never ends, and the
    idle loop at its end. *)

Inductive outcome (A : Type) : Type :=
| Ret (a : A)
| Exited (code : Z)
| Aborted
| Blocked
| Idle.

Arguments Ret {A} a.
Arguments Exited {A} code.
Arguments Aborted {A}.
Arguments Blocked {A}.
Arguments Idle {A}.

Definition M (A : Type) : Type := world -> outcome A * world.

Definition ret {A} (a : A) : M A := fun w => (Ret a, w).

Definition bind {A B} (m : M A) (k : A -> M B) : M B := fun w =>
  match m w with
  | (Ret a, w') => k a w'
  | (Exited c, w') => (Exited c, w')
  | (Aborted, w') => (Aborted, w')
  | (Blocked, w') => (Blocked, w')
  | (Idle, w') => (Idle, w')
  end.

Notation "x <- m ;;; k" := (bind m (fun x => k))
  (at level 62, m at next level, right associativity).
Notation "m ;;; k" := (bind m (fun _ => k))
  (at level 62, right associativity).

Definition act (a : action) : M unit := fun w => (Ret tt, a w).
Definition call {A} (f : world -> A * world) : M A := fun w =>
  let '(a, w') := f w in (Ret a, w').
Definition exit {A} (code : Z) : M A := fun w => (Exited code, w).
Definition abort {A} : M A := fun w => (Aborted, w).
Definition block {A} : M A := fun w => (Blocked, w).
Definition idle {A} : M A := fun w => (Idle, w).

Definition when (b : bool) (m : M unit) : M unit :=
  if b then m else ret tt.

(** Error codes of [<esp_err.h>] and [<nvs.h>]. *)
Definition ESP_OK : Z := 0.
Definition ESP_ERR_NVS_NO_FREE_PAGES : Z := 0x110d.
Definition ESP_ERR_NVS_NEW_VERSION_FOUND : Z := 0x1110.

(** Configuration keys of zenoh-pico. *)
Definition Z_CONFIG_MODE_KEY : Z := 0x41.
Definition Z_CONFIG_CONNECT_KEY : Z := 0x40.
Definition Z_CONFIG_LISTEN_KEY : Z := 0x42.

(** What the libraries answer during start-up: the status of the [n]-th
    call of a named ESP-IDF function, the events the default loop delivers
    while [wifi_init_sta] waits, and the results of the zenoh calls. *)
Record env : Type := mk_env {
  esp_result : string -> nat -> Z;
  wifi_events : list esp_event;
  z_open_result : Z;
  z_declare_subscriber_result : Z;
  z_declare_publisher_result : Z
}.

Section Startup.

(** [CONFIG_ESP_MAXIMUM_RETRY] comes from the project configuration menu. *)
Variable ESP_MAXIMUM_RETRY : Z.

(** config.h asks the user to edit these two. *)
Variables MODE LOCATOR : string.

Variable E : env.

(** ** [event_handler] *)

Definition event_handler (event_base : esp_event_base_t) (event_id : Z)
  : action := fun w =>
  if event_base_eqb event_base WIFI_EVENT
     && (event_id =? WIFI_EVENT_STA_START)
  then esp_wifi_connect w
  else if event_base_eqb event_base WIFI_EVENT
          && (event_id =? WIFI_EVENT_STA_DISCONNECTED)
  then
    if s_retry_count w <? ESP_MAXIMUM_RETRY
    then
      let w1 := esp_wifi_connect w in
      set_retry_count (wrap_int (s_retry_count w1 + 1)) w1
    else w
  else if event_base_eqb event_base IP_EVENT
          && (event_id =? IP_EVENT_STA_GOT_IP)
  then (xEventGroupSetBits WIFI_CONNECTED_BIT ;; set_retry_count 0) w
  else w.

(** The event loop calls the handler once per event, in order. *)
Fixpoint dispatch (evs : list esp_event) : action :=
  match evs with
  | [] => skip
  | ev :: rest => event_handler (fst ev) (snd ev) ;; dispatch rest
  end.

(** ** [wifi_init_sta] *)

(** A call whose status goes through [ESP_ERROR_CHECK]. *)
Definition checked (name : string) (n : nat) : M unit :=
  act (emit (ECall name)) ;;;
  if esp_result E name n =? ESP_OK then ret tt else abort.

Definition connected_bit_set (w : world) : bool :=
  negb (Z.land (s_event_group_handler w) WIFI_CONNECTED_BIT =? 0).

(** [xEventGroupWaitBits(..., WIFI_CONNECTED_BIT, pdFALSE, pdFALSE,
    portMAX_DELAY)]: the handler runs on the delivered events until the
    bit is set; without it the wait goes on for ever. *)
Fixpoint xEventGroupWaitBits (evs : list esp_event) : M Z := fun w =>
  if connected_bit_set w then (Ret (s_event_group_handler w), w)
  else
    match evs with
    | [] => (Blocked, w)
    | ev :: rest =>
        xEventGroupWaitBits rest (event_handler (fst ev) (snd ev) w)
    end.

Definition wifi_init_sta : M unit :=
  act (emit (ECall "xEventGroupCreate") ;; set_event_group 0) ;;;
  checked "esp_netif_init" 0 ;;;
  checked "esp_event_loop_create_default" 0 ;;;
  act (emit (ECall "esp_netif_create_default_wifi_sta")) ;;;
  checked "esp_wifi_init" 0 ;;;
  checked "esp_event_handler_instance_register" 0 ;;;
  checked "esp_event_handler_instance_register" 1 ;;;
  checked "esp_wifi_set_mode" 0 ;;;
  checked "esp_wifi_set_config" 0 ;;;
  checked "esp_wifi_start" 0 ;;;
  bits <- xEventGroupWaitBits (wifi_events E) ;;;
  when (negb (Z.land bits WIFI_CONNECTED_BIT =? 0))
       (act (set_is_wifi_connected true)) ;;;
  checked "esp_event_handler_instance_unregister" 0 ;;;
  checked "esp_event_handler_instance_unregister" 1 ;;;
  act (emit (ECall "vEventGroupDelete")).

(** ** [gpio_init] *)

Definition gpio_init : action :=
  emit (ECall "gpio_reset_pin") ;; emit (ECall "gpio_set_direction").

(** ** [app_main] *)

Definition app_main : M unit :=
  act (emit (ECall "esp_log_level_set")) ;;;
  ret0 <- call (fun w => (esp_result E "nvs_flash_init" 0,
                          emit (ECall "nvs_flash_init") w)) ;;;
  ret1 <- (if (ret0 =? ESP_ERR_NVS_NO_FREE_PAGES)
              || (ret0 =? ESP_ERR_NVS_NEW_VERSION_FOUND)
           then
             checked "nvs_flash_erase" 0 ;;;
             call (fun w => (esp_result E "nvs_flash_init" 1,
                             emit (ECall "nvs_flash_init") w))
           else ret ret0) ;;;
  (if ret1 =? ESP_OK then ret tt else abort) ;;;
  act (ESP_LOGI "Connecting to WiFi..." []) ;;;
  wifi_init_sta ;;;
  (* while (!s_is_wifi_connected) sleep(1): nothing sets the flag any more *)
  (fun w => if s_is_wifi_connected w then ret tt w else block w) ;;;
  act (ESP_LOGI ("Establishing the Wifi connection was successful!" ++ LF)
                []) ;;;
  act gpio_init ;;;
  act (emit (ECall "z_config_default")) ;;;
  act (emit (EConfigInsert Z_CONFIG_MODE_KEY MODE)) ;;;
  valid <- call (is_valid_locator LOCATOR) ;;;
  when (negb (valid =? 0))
       (act (ESP_LOGE
          "Invalid locator format. Please use 'tcp/<ip>:<port>#<interface>' format."
          []) ;;;
        exit (-1)) ;;;
  when (negb (strcmp LOCATOR EmptyString =? 0))
       (if strcmp MODE "client" =? 0
        then act (emit (EConfigInsert Z_CONFIG_CONNECT_KEY LOCATOR))
        else act (emit (EConfigInsert Z_CONFIG_LISTEN_KEY LOCATOR))) ;;;
  act (ESP_LOGI "Opening Zenoh Session..." []) ;;;
  act (emit EOpen) ;;;
  when (z_open_result E <? 0)
       (act (ESP_LOGE "Unable to open session!" []) ;;; exit (-1)) ;;;
  act (ESP_LOGI ("Opening Zenoh session was succesful!" ++ LF) []) ;;;
  act (emit (ECall "zp_start_read_task")) ;;;
  act (emit (ECall "zp_start_lease_task")) ;;;
  act (ESP_LOGI "Declaring Subscriber on '%s'..." [ArgStr KEYEXPR]) ;;;
  act (emit (EDeclareSubscriber KEYEXPR)) ;;;
  when (z_declare_subscriber_result E <? 0)
       (act (ESP_LOGE "Unable to declare subscriber." []) ;;; exit (-1)) ;;;
  act (ESP_LOGI "OK!" []) ;;;
  act (ESP_LOGI "Declaring Publisher on '%s'..." [ArgStr KEYEXPR]) ;;;
  act (emit (EDeclarePublisher KEYEXPR)) ;;;
  when (z_declare_publisher_result E <? 0)
       (act (ESP_LOGE "Unable to declare publisher for key expression!" []) ;;;
        exit (-1)) ;;;
  act (ESP_LOGI "OK" []) ;;;
  idle.

End Startup.

(* ================================================================== *)
(** * Vocabulary of the statements *)
(* ================================================================== *)

(** ** Receive path *)

(** The classification of a sample: what [attachment_handler] returns. *)
Definition signal_type_of (sample : z_sample) : signal_type_t :=
  fst (attachment_handler sample boot_world).

(** Log lines. *)
Definition is_log (e : event) : bool :=
  match e with
  | ELog _ _ _ _ => true
  | _ => false
  end.

(** The calls of a trace that act on the device or on the bus. *)
Definition effects (t : list event) : list event :=
  filter (fun e => negb (is_log e)) t.

(** The confirmation publishes of a trace, as (payload, tag) pairs. *)
Fixpoint publishes (t : list event) : list (string * string) :=
  match t with
  | [] => []
  | EPublisherPut payload attachment _ :: t' =>
      (payload, attachment) :: publishes t'
  | _ :: t' => publishes t'
  end.

(** The pin levels after driving one pin. *)
Definition set_pin (g : Z -> Z) (pin level : Z) : Z -> Z :=
  fun p => if p =? pin then level else g p.

(** Text of a level as the confirmation carries it. *)
Definition level_text (level : Z) : string :=
  if level =? 0 then "false" else "true".

(** The command a sample carries, if any: the payload literal under the
    tag that classifies as a target value. *)
Definition command_of (sample : z_sample) : option bool :=
  match signal_type_of sample with
  | SIGNAL_TYPE_TARGET_VALUE =>
      if String.eqb (z_sample_payload sample) "true" then Some true
      else if String.eqb (z_sample_payload sample) "false" then Some false
      else None
  | _ => None
  end.

(** The two calls of an actuation: drive the pin, publish the value. *)
Definition confirmation (b : bool) : list event :=
  [EGpioSetLevel LED_GPIO (Z.b2z b);
   EPublisherPut (if b then "true" else "false") "currentValue"
                 "zenoh/string;utf8"].

(** Payload of the last confirmation publish of a trace. *)
Definition last_published (t : list event) : option string :=
  match rev (publishes t) with
  | [] => None
  | (payload, _) :: _ => Some payload
  end.

(** The output level agrees with the last confirmation, if there is one. *)
Definition output_confirmed (w : world) : Prop :=
  match last_published (trace w) with
  | Some payload => payload = level_text (gpio_level w LED_GPIO)
  | None => True
  end.

(** What an observer of the device and of the bus sees of a world: the pin
    levels and every call that is not a log line. *)
Definition observe (w : world) : (Z -> Z) * list event :=
  (gpio_level w, effects (trace w)).

(** ** Retry automaton *)

(** Calls of [esp_wifi_connect] in a trace. *)
Definition connect_attempts (t : list event) : nat :=
  List.length (filter (fun e => match e with
                                | EWifiConnect => true
                                | _ => false
                                end) t).

(** The retry counter lies between zero and the configured maximum. *)
Definition retry_in_budget (max : Z) (w : world) : Prop :=
  0 <= s_retry_count w <= max.

(** ** Start-up *)

(** The calls that open the transport session and declare on it. *)
Definition is_session_call (e : event) : bool :=
  match e with
  | EOpen | EDeclareSubscriber _ | EDeclarePublisher _ => true
  | _ => false
  end.

(** The session calls of a trace. *)
Definition session_calls (t : list event) : list event :=
  filter is_session_call t.

(** The status [is_valid_locator] returns for a locator. *)
Definition locator_status (url : string) : Z :=
  fst (is_valid_locator url boot_world).

(** The ways start-up ends without a session: [exit(-1)], an abort, or a
    wait that never ends. *)
Definition is_failure {A} (o : outcome A) : Prop :=
  match o with
  | Exited c => c = -1
  | Aborted | Blocked => True
  | Ret _ | Idle => False
  end.

(** The ways a start-up step ends that is not allowed to exit. *)
Definition is_step {A} (o : outcome A) : Prop :=
  match o with
  | Ret _ | Aborted | Blocked => True
  | Exited _ | Idle => False
  end.

(** A computation that makes no session call and ends as [post] says. *)
Definition quiet {A} (post : outcome A -> Prop) (m : M A) : Prop :=
  forall w,
    session_calls (trace (snd (m w))) = session_calls (trace w)
    /\ post (fst (m w)).

(** The libraries at their best: every checked call succeeds and the
    network comes up. *)
Definition env_ok (E : env) : Prop :=
  (forall name n, esp_result E name n = ESP_OK)
  /\ In link_up (wifi_events E).

(** An environment in which every library call succeeds and the network
    comes up after one lost association. *)
Definition env_up : env :=
  mk_env (fun _ _ => ESP_OK)
         [(WIFI_EVENT, WIFI_EVENT_STA_START); link_down; link_up]
         0 0 0.

(** ** The locator pattern as [regcomp] compiles it *)

Definition digit_ranges : ranges := [("0"%char, "9"%char)].

Definition iface_ranges : ranges :=
  [("a"%char, "z"%char); ("A"%char, "Z"%char); ("0"%char, "9"%char);
   ("_"%char, "_"%char); ("-"%char, "-"%char)].

Definition digit : regex := Sym digit_ranges.

Definition iface_char : regex := Sym iface_ranges.

(** [([0-9]{1,3}\.)] *)
Definition octet_dot : regex := Cat (bounded digit 1 3) (lit ".").

Definition locator_body : regex :=
  Cat (lit "t") (Cat (lit "c") (Cat (lit "p") (Cat (lit "/")
  (Cat (bounded octet_dot 3 3)
  (Cat (bounded digit 1 3)
  (Cat (lit ":")
  (Cat (plus digit)
  (Cat (lit "#") (Cat (lit "i") (Cat (lit "f") (Cat (lit "a")
  (Cat (lit "c") (Cat (lit "e") (Cat (lit "=")
  (plus iface_char))))))))))))))).

(** ** The language of a compiled pattern *)

Inductive Lang : regex -> list ascii -> Prop :=
| Lang_Eps : Lang Eps []
| Lang_Sym rs c : in_ranges c rs = true -> Lang (Sym rs) [c]
| Lang_Cat r1 r2 s1 s2 :
    Lang r1 s1 -> Lang r2 s2 -> Lang (Cat r1 r2) (s1 ++ s2)
| Lang_AltL r1 r2 s : Lang r1 s -> Lang (Alt r1 r2) s
| Lang_AltR r1 r2 s : Lang r2 s -> Lang (Alt r1 r2) s
| Lang_Star0 r : Lang (Star r) []
| Lang_StarS r s1 s2 :
    Lang r s1 -> Lang (Star r) s2 -> Lang (Star r) (s1 ++ s2).

(** Strings over one bracket expression. *)
Definition all_in (rs : ranges) (s : list ascii) : Prop :=
  Forall (fun c => in_ranges c rs = true) s.

(** One to three digits. *)
Definition octet_chars (o : list ascii) : Prop :=
  (1 <= List.length o <= 3)%nat /\ all_in digit_ranges o.

(** ** The shape the spec asks for

    [^tcp/(\d{1,3}\.){3}\d{1,3}:\d+#iface=[A-Za-z0-9_-]+$], read as a
    decomposition of the whole locator. *)

(** The code of [c] lies between the codes of [lo] and [hi]. *)
Definition code_between (lo hi c : ascii) : Prop :=
  (nat_of_ascii lo <= nat_of_ascii c <= nat_of_ascii hi)%nat.

(** [\d] *)
Definition spec_digit (c : ascii) : Prop := code_between "0" "9" c.

(** [[A-Za-z0-9_-]] *)
Definition spec_iface_char (c : ascii) : Prop :=
  code_between "A" "Z" c \/ code_between "a" "z" c \/ code_between "0" "9" c
  \/ c = "_"%char \/ c = "-"%char.

(** Every character of [s] satisfies [P]. *)
Definition chars_all (P : ascii -> Prop) (s : string) : Prop :=
  Forall P (list_ascii_of_string s).

(** [\d{1,3}] *)
Definition spec_octet (s : string) : Prop :=
  (1 <= String.length s <= 3)%nat /\ chars_all spec_digit s.

(** [\d+] *)
Definition spec_port (s : string) : Prop :=
  s <> EmptyString /\ chars_all spec_digit s.

(** [[A-Za-z0-9_-]+] *)
Definition spec_iface (s : string) : Prop :=
  s <> EmptyString /\ chars_all spec_iface_char s.

(** The whole locator. *)
Definition spec_locator (url : string) : Prop :=
  exists o1 o2 o3 o4 port iface : string,
    spec_octet o1 /\ spec_octet o2 /\ spec_octet o3 /\ spec_octet o4
    /\ spec_port port /\ spec_iface iface
    /\ url = ("tcp/" ++ o1 ++ "." ++ o2 ++ "." ++ o3 ++ "." ++ o4
              ++ ":" ++ port ++ "#iface=" ++ iface)%string.

(** ** Runs of the callback and of the event handler *)

(** Text of a boolean as a payload carries it. *)
Definition bool_text (b : bool) : string :=
  if b then "true" else "false".

(** The commands a run of samples carries, in order of delivery. *)
Fixpoint commands (samples : list z_sample) : list bool :=
  match samples with
  | [] => []
  | s :: rest =>
      match command_of s with
      | Some b => b :: commands rest
      | None => commands rest
      end
  end.

(** The level the last of a list of commands leaves on a pin. *)
Definition final_level (cmds : list bool) (before : Z) : Z :=
  fold_left (fun _ b => Z.b2z b) cmds before.

(** The calls the callback can make: a log line, a level of 0 or 1 on the
    LED pin, a publish under the tag of a current value. *)
Definition is_callback_call (e : event) : bool :=
  match e with
  | ELog _ _ _ _ => true
  | EGpioSetLevel pin level =>
      (pin =? LED_GPIO) && ((level =? 0) || (level =? 1))
  | EPublisherPut payload attachment encoding =>
      (String.eqb payload "true" || String.eqb payload "false")
      && String.eqb attachment "currentValue"
      && String.eqb encoding "zenoh/string;utf8"
  | _ => false
  end.

(** A sample that carries a publish of this device back to it. *)
Definition echo_of (e : event) (keyexpr : string) (ts : option Z)
  : option z_sample :=
  match e with
  | EPublisherPut payload attachment encoding =>
      Some (mk_sample keyexpr payload encoding (Some attachment) ts)
  | _ => None
  end.

Definition is_sta_start (ev : esp_event) : bool :=
  event_base_eqb (fst ev) WIFI_EVENT && (snd ev =? WIFI_EVENT_STA_START).

Definition is_link_down (ev : esp_event) : bool :=
  event_base_eqb (fst ev) WIFI_EVENT
  && (snd ev =? WIFI_EVENT_STA_DISCONNECTED).

(** Number of events of a kind in a sequence. *)
Definition count_events (kind : esp_event -> bool) (evs : list esp_event)
  : Z :=
  Z.of_nat (List.length (filter kind evs)).

(** The calls the event handler can make: a reassociation, or setting the
    connected bit. *)
Definition is_wifi_call (e : event) : bool :=
  match e with
  | EWifiConnect => true
  | EEventGroupSetBits bits => bits =? WIFI_CONNECTED_BIT
  | _ => false
  end.

(** ** The two halves of [app_main]

    [app_main] is one sequence; the statements about it cut it in front of
    the locator validation.  [app_main_split] shows that the two halves
    put together are [app_main]. *)

(** From the first statement to the insertion of the mode. *)
Definition app_main_boot (max : Z) (MODE : string) (E : env) : M unit :=
  act (emit (ECall "esp_log_level_set")) ;;;
  ret0 <- call (fun w => (esp_result E "nvs_flash_init" 0,
                          emit (ECall "nvs_flash_init") w)) ;;;
  ret1 <- (if (ret0 =? ESP_ERR_NVS_NO_FREE_PAGES)
              || (ret0 =? ESP_ERR_NVS_NEW_VERSION_FOUND)
           then
             checked E "nvs_flash_erase" 0 ;;;
             call (fun w => (esp_result E "nvs_flash_init" 1,
                             emit (ECall "nvs_flash_init") w))
           else ret ret0) ;;;
  (if ret1 =? ESP_OK then ret tt else abort) ;;;
  act (ESP_LOGI "Connecting to WiFi..." []) ;;;
  wifi_init_sta max E ;;;
  (fun w => if s_is_wifi_connected w then ret tt w else block w) ;;;
  act (ESP_LOGI ("Establishing the Wifi connection was successful!" ++ LF)
                []) ;;;
  act gpio_init ;;;
  act (emit (ECall "z_config_default")) ;;;
  act (emit (EConfigInsert Z_CONFIG_MODE_KEY MODE)).

(** From the locator validation to the idle loop. *)
Definition app_main_from_gate (MODE LOCATOR : string) (E : env) : M unit :=
  valid <- call (is_valid_locator LOCATOR) ;;;
  when (negb (valid =? 0))
       (act (ESP_LOGE
          "Invalid locator format. Please use 'tcp/<ip>:<port>#<interface>' format."
          []) ;;;
        exit (-1)) ;;;
  when (negb (strcmp LOCATOR EmptyString =? 0))
       (if strcmp MODE "client" =? 0
        then act (emit (EConfigInsert Z_CONFIG_CONNECT_KEY LOCATOR))
        else act (emit (EConfigInsert Z_CONFIG_LISTEN_KEY LOCATOR))) ;;;
  act (ESP_LOGI "Opening Zenoh Session..." []) ;;;
  act (emit EOpen) ;;;
  when (z_open_result E <? 0)
       (act (ESP_LOGE "Unable to open session!" []) ;;; exit (-1)) ;;;
  act (ESP_LOGI ("Opening Zenoh session was succesful!" ++ LF) []) ;;;
  act (emit (ECall "zp_start_read_task")) ;;;
  act (emit (ECall "zp_start_lease_task")) ;;;
  act (ESP_LOGI "Declaring Subscriber on '%s'..." [ArgStr KEYEXPR]) ;;;
  act (emit (EDeclareSubscriber KEYEXPR)) ;;;
  when (z_declare_subscriber_result E <? 0)
       (act (ESP_LOGE "Unable to declare subscriber." []) ;;; exit (-1)) ;;;
  act (ESP_LOGI "OK!" []) ;;;
  act (ESP_LOGI "Declaring Publisher on '%s'..." [ArgStr KEYEXPR]) ;;;
  act (emit (EDeclarePublisher KEYEXPR)) ;;;
  when (z_declare_publisher_result E <? 0)
       (act (ESP_LOGE "Unable to declare publisher for key expression!" []) ;;;
        exit (-1)) ;;;
  act (ESP_LOGI "OK" []) ;;;
  idle.

(** The session calls of a start-up, by the results of the three zenoh
    calls: each call is made once the one before it succeeded. *)
Definition session_calls_made (E : env) : list event :=
  EOpen ::
  (if z_open_result E <? 0 then []
   else EDeclareSubscriber KEYEXPR ::
        (if z_declare_subscriber_result E <? 0 then []
         else [EDeclarePublisher KEYEXPR])).

(** The three zenoh calls succeed. *)
Definition session_ok (E : env) : Prop :=
  0 <= z_open_result E
  /\ 0 <= z_declare_subscriber_result E
  /\ 0 <= z_declare_publisher_result E.

(** The endpoint insertions of a trace, as (key, locator) pairs. *)
Fixpoint endpoints (t : list event) : list (Z * string) :=
  match t with
  | [] => []
  | EConfigInsert key value :: t' =>
      if key =? Z_CONFIG_MODE_KEY then endpoints t'
      else (key, value) :: endpoints t'
  | _ :: t' => endpoints t'
  end.

(** The characters a locator can hold: those of an interface name and the
    five separators. *)
Definition locator_char (c : ascii) : Prop :=
  spec_iface_char c
  \/ c = "."%char \/ c = ":"%char \/ c = "#"%char \/ c = "/"%char
  \/ c = "="%char.

(* ================================================================== *)
(** * Properties of the C library model *)
(* ================================================================== *)

Lemma uchar_diff_zero (c d : ascii) : uchar c - uchar d = 0 -> c = d.
Proof.
  unfold uchar. intros H.
  assert (E : nat_of_ascii c = nat_of_ascii d) by lia.
  rewrite <- (ascii_nat_embedding c), <- (ascii_nat_embedding d).
  now rewrite E.
Qed.

Lemma strncmp_step (s1 s2 : string) (n : nat) :
  strncmp s1 s2 (S n) =
  if negb (Ascii.eqb (peek s1) (peek s2))
  then uchar (peek s1) - uchar (peek s2)
  else if Ascii.eqb (peek s1) NUL then 0
  else strncmp (advance s1) (advance s2) n.
Proof. reflexivity. Qed.

Lemma c_str_step (s : string) :
  c_str s =
  if Ascii.eqb (peek s) NUL then [] else peek s :: c_str (advance s).
Proof.
  destruct s as [|c r]; [|reflexivity].
  unfold peek. now rewrite Ascii.eqb_refl.
Qed.

(** [strncmp] answers 0 exactly when the two C strings agree on their
    first [n] characters. *)
Lemma strncmp_zero_iff (n : nat) :
  forall s1 s2,
    strncmp s1 s2 n = 0 <-> firstn n (c_str s1) = firstn n (c_str s2).
Proof.
  induction n as [|n IH]; intros s1 s2.
  - simpl. tauto.
  - rewrite strncmp_step, (c_str_step s1), (c_str_step s2).
    destruct (Ascii.eqb_spec (peek s1) (peek s2)) as [E | Hne]; cbn [negb].
    + rewrite <- E.
      destruct (Ascii.eqb_spec (peek s1) NUL) as [_ | Hc]; [tauto|].
      rewrite IH. cbn [firstn]. split; [congruence|]. now intros [= H].
    + split.
      * intros H. apply uchar_diff_zero in H. contradiction.
      * destruct (Ascii.eqb_spec (peek s1) NUL),
                 (Ascii.eqb_spec (peek s2) NUL);
          cbn [firstn]; try congruence; intros [= H]; congruence.
Qed.

Lemma c_str_no_nul (s : string) :
  is_c_string s -> c_str s = list_ascii_of_string s.
Proof.
  unfold is_c_string.
  induction s as [|c r IH]; simpl; intros H; [reflexivity|].
  destruct (Ascii.eqb_spec c NUL) as [-> | _].
  - exfalso. apply H. now left.
  - f_equal. apply IH. intros Hin. apply H. now right.
Qed.

Lemma c_str_length (s : string) :
  (List.length (c_str s) <= String.length s)%nat.
Proof.
  induction s as [|c r IH]; simpl; [lia|].
  destruct (Ascii.eqb c NUL); simpl; lia.
Qed.

Lemma is_c_string_cons (c : ascii) (s : string) :
  is_c_string (String c s) -> c <> NUL /\ is_c_string s.
Proof.
  unfold is_c_string. simpl. intros H. split.
  - intros ->. apply H. now left.
  - intros Hin. apply H. now right.
Qed.

Lemma firstn_c_str_inj (value : string) :
  forall lit,
    is_c_string lit ->
    String.length value = String.length lit ->
    firstn (String.length lit) (c_str value)
    = firstn (String.length lit) (c_str lit) ->
    value = lit.
Proof.
  induction value as [|c r IH]; intros [|d l] Hlit Hlen Heq;
    try discriminate; [reflexivity|].
  apply is_c_string_cons in Hlit as [Hd Hl].
  cbn [c_str String.length] in Heq.
  destruct (Ascii.eqb_spec d NUL) as [E | _]; [contradiction|].
  destruct (Ascii.eqb c NUL); cbn [firstn] in Heq; [discriminate|].
  injection Heq as -> Heq. f_equal.
  apply IH; [assumption | simpl in Hlen; lia | assumption].
Qed.

(** A length test followed by [strncmp] against a literal of that length
    is equality of byte strings. *)
Lemma exact_match_iff (lit value : string) :
  is_c_string lit ->
  (z_string_len value =? z_string_len lit)
  && (strncmp value lit (String.length lit) =? 0) = true
  <-> value = lit.
Proof.
  intros Hlit. unfold z_string_len.
  rewrite andb_true_iff, !Z.eqb_eq, strncmp_zero_iff.
  split.
  - intros [Hlen Heq]. apply Nat2Z.inj in Hlen.
    now apply firstn_c_str_inj.
  - intros ->. split; reflexivity.
Qed.

(* ================================================================== *)
(** * The receive path: classifier, actuation, confirmation *)
(* ================================================================== *)

Lemma attachment_handler_result (sample : z_sample) (w : world) :
  fst (attachment_handler sample w) = signal_type_of sample.
Proof.
  unfold signal_type_of, attachment_handler.
  now destruct (z_sample_attachment sample).
Qed.

Lemma effects_app (t1 t2 : list event) :
  effects (t1 ++ t2) = effects t1 ++ effects t2.
Proof. apply filter_app. Qed.

Lemma publishes_app (t1 t2 : list event) :
  publishes (t1 ++ t2) = publishes t1 ++ publishes t2.
Proof.
  induction t1 as [|e t1 IH]; [reflexivity|].
  destruct e; simpl; now rewrite ?IH.
Qed.

Lemma publishes_effects (t : list event) :
  publishes (effects t) = publishes t.
Proof.
  induction t as [|e t IH]; [reflexivity|].
  destruct e; simpl; now rewrite ?IH.
Qed.

Lemma is_c_string_true : is_c_string "true".
Proof. unfold is_c_string. simpl. intuition discriminate. Qed.

Lemma is_c_string_false : is_c_string "false".
Proof. unfold is_c_string. simpl. intuition discriminate. Qed.

Lemma payload_true_test (value : string) :
  (z_string_len value =? 4) && (strncmp value "true" 4 =? 0)
  = String.eqb value "true".
Proof.
  apply eq_true_iff_eq.
  rewrite (exact_match_iff "true" value is_c_string_true).
  symmetry. apply String.eqb_eq.
Qed.

Lemma payload_false_test (value : string) :
  (z_string_len value =? 5) && (strncmp value "false" 5 =? 0)
  = String.eqb value "false".
Proof.
  apply eq_true_iff_eq.
  rewrite (exact_match_iff "false" value is_c_string_false).
  symmetry. apply String.eqb_eq.
Qed.

(** Runs an action on a world in constructor form, one call at a time. *)
Ltac run_world :=
  cbv [seq skip pub_status ESP_LOGI ESP_LOGE gpio_set_level emit
       esp_wifi_connect xEventGroupSetBits set_retry_count
       set_is_wifi_connected set_event_group
       trace s_is_wifi_connected s_event_group_handler s_retry_count
       gpio_level];
  repeat rewrite <- app_assoc; cbn [app].

(** Symbolic run of the callback: it leaves the statics alone, extends the
    trace, and beyond log lines does what the carried command says. *)
Lemma data_handler_run (sample : z_sample) (w : world) :
  exists new,
    data_handler sample w =
    mk_world (s_is_wifi_connected w) (s_event_group_handler w)
             (s_retry_count w)
             (match command_of sample with
              | Some b => set_pin (gpio_level w) LED_GPIO (Z.b2z b)
              | None => gpio_level w
              end)
             (trace w ++ new)
    /\ effects new = match command_of sample with
                     | Some b => confirmation b
                     | None => []
                     end.
Proof.
  unfold data_handler, command_of.
  destruct (attachment_handler sample _) as [st w4] eqn:Hah.
  pose proof (attachment_handler_result sample) as Hst.
  match type of Hah with
  | attachment_handler _ ?w3 = _ => specialize (Hst w3)
  end.
  rewrite Hah in Hst. cbn [fst] in Hst. rewrite <- Hst.
  rewrite payload_true_test, payload_false_test.
  unfold attachment_handler in Hah.
  destruct w as [c b r g t].
  destruct (z_sample_timestamp sample), (z_sample_attachment sample);
    injection Hah as Hres <-; clear Hres Hst;
    destruct st; cbn [signal_type_eqb];
    try destruct (String.eqb (z_sample_payload sample) "true");
    try destruct (String.eqb (z_sample_payload sample) "false");
    run_world;
    eexists; (split; [reflexivity | reflexivity]).
Qed.

Lemma data_handler_logs (sample : z_sample) (w : world) :
  exists e rest, trace (data_handler sample w) = trace w ++ e :: rest
                 /\ is_log e = true.
Proof.
  unfold data_handler.
  destruct (attachment_handler sample _) as [st w4] eqn:Hah.
  unfold attachment_handler in Hah.
  destruct w as [c b r g t].
  destruct (z_sample_timestamp sample), (z_sample_attachment sample);
    injection Hah as Hres <-; clear Hres;
    destruct st; cbn [signal_type_eqb];
    repeat match goal with
           | |- context [if ?b then _ else _] => destruct b
           end;
    run_world; eexists; eexists; (split; reflexivity).
Qed.

Lemma signal_type_of_attachment (s1 s2 : z_sample) :
  z_sample_attachment s1 = z_sample_attachment s2 ->
  signal_type_of s1 = signal_type_of s2.
Proof.
  unfold signal_type_of, attachment_handler. now intros ->.
Qed.

Lemma command_of_depends (s1 s2 : z_sample) :
  z_sample_attachment s1 = z_sample_attachment s2 ->
  z_sample_payload s1 = z_sample_payload s2 ->
  command_of s1 = command_of s2.
Proof.
  intros Ha Hp. unfold command_of.
  now rewrite (signal_type_of_attachment s1 s2 Ha), Hp.
Qed.

Lemma command_of_target (sample : z_sample) (b : bool) :
  signal_type_of sample = SIGNAL_TYPE_TARGET_VALUE ->
  z_sample_payload sample = (if b then "true" else "false") ->
  command_of sample = Some b.
Proof.
  unfold command_of. intros -> ->. now destruct b.
Qed.

Lemma command_of_some (sample : z_sample) (b : bool) :
  command_of sample = Some b ->
  signal_type_of sample = SIGNAL_TYPE_TARGET_VALUE
  /\ z_sample_payload sample = (if b then "true" else "false").
Proof.
  unfold command_of.
  destruct (signal_type_of sample); try discriminate.
  destruct (String.eqb_spec (z_sample_payload sample) "true") as [-> | _].
  - now intros [= <-].
  - destruct (String.eqb_spec (z_sample_payload sample) "false")
      as [-> | _]; [|discriminate].
    now intros [= <-].
Qed.

Lemma command_of_none (sample : z_sample) :
  (signal_type_of sample = SIGNAL_TYPE_TARGET_VALUE ->
   z_sample_payload sample <> "true"
   /\ z_sample_payload sample <> "false") ->
  command_of sample = None.
Proof.
  unfold command_of. intros H.
  destruct (signal_type_of sample); try reflexivity.
  destruct (H eq_refl) as [Ht Hf].
  destruct (String.eqb_spec (z_sample_payload sample) "true");
    [contradiction|].
  destruct (String.eqb_spec (z_sample_payload sample) "false");
    [contradiction|reflexivity].
Qed.

Lemma effects_nil_logs (t : list event) :
  effects t = [] -> Forall (fun e => is_log e = true) t.
Proof.
  induction t as [|e t IH]; simpl; intros H; [constructor|].
  destruct (is_log e) eqn:He; simpl in H; [|discriminate].
  constructor; auto.
Qed.

(** ** The classifier *)

(** A tag that is an initial part of the literal compares equal under
    [strncmp] bounded by the tag's own length. *)
Lemma strncmp_initial_part (lit tag : string) :
  String.prefix tag lit = true ->
  strncmp tag lit (String.length tag) = 0.
Proof.
  revert lit. induction tag as [|c r IH]; intros lit H; [reflexivity|].
  destruct lit as [|d l]; [discriminate|].
  cbn [String.prefix] in H.
  destruct (ascii_dec c d) as [-> | Hne]; [|discriminate].
  cbn [String.length]. rewrite strncmp_step. cbn [peek advance].
  rewrite Ascii.eqb_refl. cbn [negb].
  destruct (Ascii.eqb d NUL); [reflexivity|]. now apply IH.
Qed.

Lemma initial_part_current (sample : z_sample) (tag : string) :
  z_sample_attachment sample = Some tag ->
  String.prefix tag "currentValue" = true ->
  signal_type_of sample = SIGNAL_TYPE_CURRENT_VALUE.
Proof.
  intros Ha Hp. unfold signal_type_of, attachment_handler.
  rewrite Ha. cbn [fst].
  now rewrite (strncmp_initial_part _ _ Hp).
Qed.

(** C1 (code defect).  The classifier on the spec's four example tags, and
    on three tags that are not one of the two literals: a tag "current"
    is taken for a current value, a tag "target" for a target value, and an
    empty tag for a current value.  [strncmp] is bounded by the length of
    the tag and the lengths are never compared, so every initial part of a
    literal passes for the literal. *)
Theorem attachment_handler_initial_part
  (k p e : string) (ts : option Z) (w : world) :
  let classify tag := fst (attachment_handler (mk_sample k p e tag ts) w) in
  classify None = SIGNAL_TYPE_UNKNOWN
  /\ classify (Some "currentValue") = SIGNAL_TYPE_CURRENT_VALUE
  /\ classify (Some "targetValue") = SIGNAL_TYPE_TARGET_VALUE
  /\ classify (Some "currentValueX") = SIGNAL_TYPE_UNKNOWN
  /\ classify (Some "current") = SIGNAL_TYPE_CURRENT_VALUE
  /\ classify (Some "target") = SIGNAL_TYPE_TARGET_VALUE
  /\ classify (Some EmptyString) = SIGNAL_TYPE_CURRENT_VALUE.
Proof.
  cbv zeta. repeat split; reflexivity.
Qed.

(** ** Actuation and confirmation *)

Lemma last_published_app (t : list event) (payload tag enc : string) :
  last_published (t ++ [EPublisherPut payload tag enc]) = Some payload.
Proof.
  unfold last_published. rewrite publishes_app. simpl.
  now rewrite rev_app_distr.
Qed.

Lemma last_published_effects (t : list event) :
  last_published (effects t) = last_published t.
Proof. unfold last_published. now rewrite publishes_effects. Qed.

Lemma last_published_confirmation (t new : list event) (b : bool) :
  effects new = confirmation b ->
  last_published (t ++ new) = Some (if b then "true" else "false").
Proof.
  intros H.
  rewrite <- last_published_effects, effects_app, H.
  unfold confirmation.
  change [?x; ?y] with ([x] ++ [y]). rewrite app_assoc.
  apply last_published_app.
Qed.

Lemma last_published_quiet (t new : list event) :
  effects new = [] -> last_published (t ++ new) = last_published t.
Proof.
  intros H.
  rewrite <- last_published_effects, effects_app, H, app_nil_r.
  apply last_published_effects.
Qed.

(** C2.  A sample classified as a target value whose payload is "true"
    (or "false") sets the LED pin to 1 (or 0) and then publishes once, the
    same literal under the tag "currentValue".  Apart from log lines the
    callback makes exactly these two calls, in this order. *)
Theorem data_handler_actuates_then_confirms
  (sample : z_sample) (w : world) (b : bool) :
  signal_type_of sample = SIGNAL_TYPE_TARGET_VALUE ->
  z_sample_payload sample = (if b then "true" else "false") ->
  let w' := data_handler sample w in
  gpio_level w' LED_GPIO = Z.b2z b
  /\ exists new,
       trace w' = trace w ++ new
       /\ effects new =
            [EGpioSetLevel LED_GPIO (Z.b2z b);
             EPublisherPut (if b then "true" else "false") "currentValue"
                           "zenoh/string;utf8"]
       /\ publishes new = [(if b then "true" else "false", "currentValue")].
Proof.
  intros Hst Hp w'. subst w'.
  destruct (data_handler_run sample w) as (new & Hrun & Heff).
  rewrite (command_of_target sample b Hst Hp) in Hrun, Heff.
  rewrite Hrun. cbn [gpio_level trace]. split.
  - unfold set_pin. now rewrite Z.eqb_refl.
  - exists new. repeat split; [exact Heff|].
    rewrite <- publishes_effects, Heff. reflexivity.
Qed.

Lemma data_handler_actuates_then_confirms_witness :
  let sample := mk_sample KEYEXPR "true" "zenoh/string;utf8"
                          (Some "targetValue") None in
  let w' := data_handler sample boot_world in
  gpio_level w' LED_GPIO = 1
  /\ exists new,
       trace w' = trace boot_world ++ new
       /\ effects new =
            [EGpioSetLevel LED_GPIO 1;
             EPublisherPut "true" "currentValue" "zenoh/string;utf8"]
       /\ publishes new = [("true", "currentValue")].
Proof.
  exact (data_handler_actuates_then_confirms
           (mk_sample KEYEXPR "true" "zenoh/string;utf8"
                      (Some "targetValue") None)
           boot_world true eq_refl eq_refl).
Defined.

(** One callback keeps the agreement of pin and last confirmation. *)
Lemma data_handler_keeps_confirmed (sample : z_sample) (w : world) :
  output_confirmed w -> output_confirmed (data_handler sample w).
Proof.
  destruct (data_handler_run sample w) as (new & Hrun & Heff).
  rewrite Hrun. unfold output_confirmed. cbn [gpio_level trace].
  destruct (command_of sample) as [b|].
  - intros _. rewrite (last_published_confirmation _ _ _ Heff).
    unfold set_pin. rewrite Z.eqb_refl. now destruct b.
  - now rewrite (last_published_quiet _ _ Heff).
Qed.

(** The agreement holds along every run of the callback. *)
Lemma deliver_output_confirmed (samples : list z_sample) :
  forall w, output_confirmed w -> output_confirmed (deliver samples w).
Proof.
  induction samples as [|s rest IH]; intros w Hw; [exact Hw|].
  cbn [deliver]. unfold seq. apply IH.
  now apply data_handler_keeps_confirmed.
Qed.

(** C3.  After a callback that actuates (target value with payload "true"
    or "false") the level of the LED pin is the value of the last
    confirmation publish; a callback whose classification is a current
    value or unknown publishes nothing and leaves the pin alone; and the
    agreement of pin and last confirmation, once it holds, survives every
    callback. *)
Theorem data_handler_output_confirmed (sample : z_sample) (w : world) :
  let w' := data_handler sample w in
  (forall b : bool,
      signal_type_of sample = SIGNAL_TYPE_TARGET_VALUE ->
      z_sample_payload sample = (if b then "true" else "false") ->
      last_published (trace w')
      = Some (level_text (gpio_level w' LED_GPIO)))
  /\ (signal_type_of sample = SIGNAL_TYPE_CURRENT_VALUE
      \/ signal_type_of sample = SIGNAL_TYPE_UNKNOWN ->
      publishes (trace w') = publishes (trace w)
      /\ gpio_level w' = gpio_level w)
  /\ (output_confirmed w -> output_confirmed w').
Proof.
  intros w'. subst w'. split; [|split].
  - intros b Hst Hp.
    destruct (data_handler_run sample w) as (new & Hrun & Heff).
    rewrite (command_of_target sample b Hst Hp) in Hrun, Heff.
    rewrite Hrun. cbn [gpio_level trace].
    rewrite (last_published_confirmation _ _ _ Heff).
    unfold set_pin. rewrite Z.eqb_refl. now destruct b.
  - intros Hst.
    destruct (data_handler_run sample w) as (new & Hrun & Heff).
    rewrite command_of_none in Hrun, Heff
      by (intros Ht; destruct Hst; congruence).
    rewrite Hrun. cbn [gpio_level trace]. split; [|reflexivity].
    rewrite <- publishes_effects, effects_app, Heff, app_nil_r.
    apply publishes_effects.
  - apply data_handler_keeps_confirmed.
Qed.

Lemma data_handler_output_confirmed_witness :
  let sample := mk_sample KEYEXPR "false" "zenoh/string;utf8"
                          (Some "targetValue") (Some 7) in
  let w' := data_handler sample boot_world in
  last_published (trace w') = Some "false"
  /\ gpio_level w' LED_GPIO = 0
  /\ output_confirmed w'.
Proof.
  pose proof (data_handler_output_confirmed
                (mk_sample KEYEXPR "false" "zenoh/string;utf8"
                           (Some "targetValue") (Some 7))
                boot_world) as (Hlast & _ & Hinv).
  cbv zeta. split; [|split].
  - exact (Hlast false eq_refl eq_refl).
  - reflexivity.
  - exact (Hinv I).
Defined.

(** C7.  A target value with a payload other than "true" and "false", and
    a current value with any payload, change no static and no pin and make
    no call but log lines, of which there is at least one. *)
Theorem data_handler_drops (sample : z_sample) (w : world) :
  (signal_type_of sample = SIGNAL_TYPE_TARGET_VALUE
   /\ z_sample_payload sample <> "true"
   /\ z_sample_payload sample <> "false")
  \/ signal_type_of sample = SIGNAL_TYPE_CURRENT_VALUE ->
  let w' := data_handler sample w in
  gpio_level w' = gpio_level w
  /\ s_retry_count w' = s_retry_count w
  /\ s_is_wifi_connected w' = s_is_wifi_connected w
  /\ publishes (trace w') = publishes (trace w)
  /\ exists logs,
       trace w' = trace w ++ logs
       /\ logs <> []
       /\ Forall (fun e => is_log e = true) logs.
Proof.
  intros H w'. subst w'.
  assert (Hnone : command_of sample = None).
  { apply command_of_none. intros Ht.
    destruct H as [(_ & Hp) | Hc]; [exact Hp | congruence]. }
  destruct (data_handler_logs sample w) as (e & rest & Htr & _).
  destruct (data_handler_run sample w) as (new & Hrun & Heff).
  rewrite Hnone in Hrun, Heff.
  rewrite Hrun in Htr |- *. cbn [trace] in Htr.
  cbn [gpio_level s_retry_count s_is_wifi_connected trace].
  repeat split.
  - rewrite <- publishes_effects, effects_app, Heff, app_nil_r.
    apply publishes_effects.
  - exists new. repeat split.
    + apply app_inv_head in Htr. now rewrite Htr.
    + now apply effects_nil_logs.
Qed.

Lemma data_handler_drops_witness :
  let sample := mk_sample KEYEXPR "maybe" "zenoh/string;utf8"
                          (Some "targetValue") None in
  let w' := data_handler sample boot_world in
  gpio_level w' = gpio_level boot_world
  /\ s_retry_count w' = s_retry_count boot_world
  /\ s_is_wifi_connected w' = s_is_wifi_connected boot_world
  /\ publishes (trace w') = publishes (trace boot_world)
  /\ exists logs,
       trace w' = trace boot_world ++ logs
       /\ logs <> []
       /\ Forall (fun e => is_log e = true) logs.
Proof.
  apply (data_handler_drops
           (mk_sample KEYEXPR "maybe" "zenoh/string;utf8"
                      (Some "targetValue") None)
           boot_world).
  left. repeat split; discriminate.
Defined.

(** C10.  Two samples with the same tag and the same payload drive the
    device and the bus alike, whatever their key expressions, encodings
    and timestamps: from worlds that look the same to an observer the
    callback leads to worlds that look the same, with the same statics. *)
Theorem data_handler_tag_payload_only (s1 s2 : z_sample) (w1 w2 : world) :
  z_sample_attachment s1 = z_sample_attachment s2 ->
  z_sample_payload s1 = z_sample_payload s2 ->
  observe w1 = observe w2 ->
  observe (data_handler s1 w1) = observe (data_handler s2 w2)
  /\ publishes (trace (data_handler s1 w1))
     = publishes (trace (data_handler s2 w2))
  /\ s_retry_count (data_handler s1 w1) = s_retry_count w1
  /\ s_is_wifi_connected (data_handler s1 w1) = s_is_wifi_connected w1.
Proof.
  intros Ha Hp Hobs.
  destruct (data_handler_run s1 w1) as (new1 & Hrun1 & Heff1).
  destruct (data_handler_run s2 w2) as (new2 & Hrun2 & Heff2).
  rewrite (command_of_depends s1 s2 Ha Hp) in Hrun1, Heff1.
  unfold observe in *. injection Hobs as Hg Ht.
  assert (Hobs' : observe (data_handler s1 w1) = observe (data_handler s2 w2)).
  { unfold observe. rewrite Hrun1, Hrun2. cbn [gpio_level trace].
    now rewrite !effects_app, Heff1, Heff2, Hg, Ht. }
  repeat split.
  - exact Hobs'.
  - unfold observe in Hobs'. injection Hobs' as _ He.
    now rewrite <- publishes_effects, He, publishes_effects.
  - now rewrite Hrun1.
  - now rewrite Hrun1.
Qed.

Lemma data_handler_tag_payload_only_witness :
  let s1 := mk_sample KEYEXPR "true" "zenoh/string;utf8"
                      (Some "targetValue") None in
  let s2 := mk_sample "Vehicle/Body/Lights/IsOn" "true" "text/plain"
                      (Some "targetValue") (Some 1700000000) in
  observe (data_handler s1 boot_world) = observe (data_handler s2 boot_world)
  /\ publishes (trace (data_handler s1 boot_world))
     = publishes (trace (data_handler s2 boot_world))
  /\ s_retry_count (data_handler s1 boot_world) = s_retry_count boot_world
  /\ s_is_wifi_connected (data_handler s1 boot_world)
     = s_is_wifi_connected boot_world.
Proof.
  exact (data_handler_tag_payload_only
           (mk_sample KEYEXPR "true" "zenoh/string;utf8"
                      (Some "targetValue") None)
           (mk_sample "Vehicle/Body/Lights/IsOn" "true" "text/plain"
                      (Some "targetValue") (Some 1700000000))
           boot_world boot_world eq_refl eq_refl eq_refl).
Defined.

(* ================================================================== *)
(** * The Wi-Fi retry automaton *)
(* ================================================================== *)

Lemma wrap_int_small (z : Z) :
  - 2 ^ 31 <= z <= INT_MAX -> wrap_int z = z.
Proof.
  unfold wrap_int, INT_MAX. intros H.
  rewrite Z.mod_small; lia.
Qed.

Lemma connect_attempts_snoc (t : list event) (e : event) :
  connect_attempts (t ++ [e]) =
  (connect_attempts t + match e with EWifiConnect => 1 | _ => 0 end)%nat.
Proof.
  unfold connect_attempts. rewrite filter_app, length_app.
  now destruct e.
Qed.

Section Retry.

Variable ESP_MAXIMUM_RETRY : Z.

(** A link-down event within the budget: one reassociation, counter up by
    one. *)
Lemma link_down_retries (w : world) :
  ESP_MAXIMUM_RETRY <= INT_MAX ->
  0 <= s_retry_count w < ESP_MAXIMUM_RETRY ->
  let w' := event_handler ESP_MAXIMUM_RETRY (fst link_down) (snd link_down) w in
  s_retry_count w' = s_retry_count w + 1
  /\ trace w' = trace w ++ [EWifiConnect].
Proof.
  intros Hmax Hc. unfold event_handler. cbn [fst snd link_down].
  cbn [event_base_eqb andb].
  change (WIFI_EVENT_STA_DISCONNECTED =? WIFI_EVENT_STA_START) with false.
  rewrite Z.eqb_refl.
  destruct (Z.ltb_spec (s_retry_count w) ESP_MAXIMUM_RETRY) as [_ | Hge];
    [|lia].
  destruct w as [c b r g t]. run_world. cbn [s_retry_count] in Hc.
  split; [|reflexivity].
  apply wrap_int_small. unfold INT_MAX in *. lia.
Qed.

(** A link-down event with the budget used up: nothing happens. *)
Lemma link_down_exhausted (w : world) :
  ESP_MAXIMUM_RETRY <= s_retry_count w ->
  event_handler ESP_MAXIMUM_RETRY (fst link_down) (snd link_down) w = w.
Proof.
  intros Hc. unfold event_handler. cbn [fst snd link_down].
  cbn [event_base_eqb andb].
  change (WIFI_EVENT_STA_DISCONNECTED =? WIFI_EVENT_STA_START) with false.
  rewrite Z.eqb_refl.
  destruct (Z.ltb_spec (s_retry_count w) ESP_MAXIMUM_RETRY); [lia|].
  reflexivity.
Qed.

(** A link-up event: counter back to zero. *)
Lemma link_up_resets (w : world) :
  s_retry_count (event_handler ESP_MAXIMUM_RETRY (fst link_up) (snd link_up) w) = 0.
Proof.
  unfold event_handler. cbn [fst snd link_up event_base_eqb andb].
  rewrite Z.eqb_refl. now destruct w.
Qed.

(** The handler, event by event: the counter moves by the three rules and
    by no other. *)
Lemma handler_retry_count (base : esp_event_base_t) (id : Z) (w : world) :
  ESP_MAXIMUM_RETRY <= INT_MAX ->
  0 <= s_retry_count w ->
  let c' := s_retry_count (event_handler ESP_MAXIMUM_RETRY base id w) in
  (is_link_up (base, id) = true /\ c' = 0)
  \/ (is_link_up (base, id) = false
      /\ s_retry_count w < ESP_MAXIMUM_RETRY
      /\ c' = s_retry_count w + 1)
  \/ (is_link_up (base, id) = false /\ c' = s_retry_count w).
Proof.
  intros Hmax Hc. unfold event_handler, is_link_up. cbn [fst snd].
  destruct base; cbn [event_base_eqb andb].
  - destruct (id =? WIFI_EVENT_STA_START).
    + right; right. now destruct w.
    + destruct (id =? WIFI_EVENT_STA_DISCONNECTED).
      * destruct (Z.ltb_spec (s_retry_count w) ESP_MAXIMUM_RETRY).
        -- right; left. repeat split; [assumption|].
           destruct w as [c b r g t]. run_world. cbn [s_retry_count] in *.
           apply wrap_int_small. unfold INT_MAX in *. lia.
        -- right; right. now split.
      * right; right. now split.
  - destruct (id =? IP_EVENT_STA_GOT_IP).
    + left. split; [reflexivity|]. now destruct w.
    + right; right. now split.
  - right; right. now split.
Qed.

Lemma handler_in_budget (base : esp_event_base_t) (id : Z) (w : world) :
  ESP_MAXIMUM_RETRY <= INT_MAX ->
  retry_in_budget ESP_MAXIMUM_RETRY w ->
  retry_in_budget ESP_MAXIMUM_RETRY (event_handler ESP_MAXIMUM_RETRY base id w).
Proof.
  unfold retry_in_budget. intros Hmax Hc.
  destruct (handler_retry_count base id w Hmax (proj1 Hc))
    as [(_ & ->) | [(_ & Hlt & ->) | (_ & ->)]]; lia.
Qed.

Lemma run_in_budget (evs : list esp_event) :
  ESP_MAXIMUM_RETRY <= INT_MAX ->
  forall w,
    retry_in_budget ESP_MAXIMUM_RETRY w ->
    retry_in_budget ESP_MAXIMUM_RETRY (dispatch ESP_MAXIMUM_RETRY evs w).
Proof.
  intros Hmax.
  induction evs as [|ev rest IH]; intros w Hw; [exact Hw|].
  cbn [dispatch]. unfold seq. apply IH.
  now apply handler_in_budget.
Qed.

(** [k] link-down events in a row, all within the budget. *)
Lemma run_link_downs (k : nat) :
  ESP_MAXIMUM_RETRY <= INT_MAX ->
  forall w,
    0 <= s_retry_count w ->
    s_retry_count w + Z.of_nat k <= ESP_MAXIMUM_RETRY ->
    let w' := dispatch ESP_MAXIMUM_RETRY (repeat link_down k) w in
    s_retry_count w' = s_retry_count w + Z.of_nat k
    /\ connect_attempts (trace w') = (connect_attempts (trace w) + k)%nat.
Proof.
  intros Hmax.
  induction k as [|k IH]; intros w H0 Hk.
  - cbv zeta. cbn [repeat dispatch]. unfold skip.
    now rewrite Z.add_0_r, Nat.add_0_r.
  - cbn [repeat dispatch]. unfold seq.
    destruct (link_down_retries w Hmax) as [Hc Ht]; [lia|].
    destruct (IH (event_handler ESP_MAXIMUM_RETRY (fst link_down) (snd link_down) w)) as [Hc' Ht'];
      [lia | lia |].
    cbv zeta. rewrite Hc', Ht', Hc, Ht, connect_attempts_snoc.
    split; lia.
Qed.

(** Without a link-up event an exhausted budget stays exhausted. *)
Lemma run_stays_exhausted (evs : list esp_event) :
  ESP_MAXIMUM_RETRY <= INT_MAX ->
  forallb (fun ev => negb (is_link_up ev)) evs = true ->
  forall w,
    0 <= s_retry_count w ->
    ESP_MAXIMUM_RETRY <= s_retry_count w ->
    ESP_MAXIMUM_RETRY <= s_retry_count (dispatch ESP_MAXIMUM_RETRY evs w).
Proof.
  intros Hmax.
  induction evs as [|[base id] rest IH]; intros Hq w H0 Hw; [exact Hw|].
  cbn [forallb] in Hq. apply andb_true_iff in Hq as [Hev Hq].
  apply negb_true_iff in Hev.
  cbn [dispatch fst snd]. unfold seq.
  destruct (handler_retry_count base id w Hmax H0)
    as [(Hup & _) | [(_ & Hlt & _) | (_ & Hsame)]];
    [congruence | lia |].
  apply IH; [assumption | lia | lia].
Qed.

End Retry.

(** C6.  From a connected state (counter at zero), [ESP_MAXIMUM_RETRY]
    link-down events in a row each start a reassociation and use up the
    budget; from then on, as long as no link-up event arrives, a link-down
    event changes nothing and starts no reassociation.  A link-up event
    sets the counter to zero in every state. *)
Theorem event_handler_retry_budget (ESP_MAXIMUM_RETRY : Z) (w : world) :
  0 <= ESP_MAXIMUM_RETRY <= INT_MAX ->
  s_retry_count w = 0 ->
  let run := dispatch ESP_MAXIMUM_RETRY in
  let handler ev := event_handler ESP_MAXIMUM_RETRY (fst ev) (snd ev) in
  let w1 := run (repeat link_down (Z.to_nat ESP_MAXIMUM_RETRY)) w in
  connect_attempts (trace w1)
  = (connect_attempts (trace w) + Z.to_nat ESP_MAXIMUM_RETRY)%nat
  /\ (forall later,
         forallb (fun ev => negb (is_link_up ev)) later = true ->
         handler link_down (run later w1) = run later w1)
  /\ (forall w', s_retry_count (handler link_up w') = 0).
Proof.
  intros [Hmin Hmax] Hzero. cbv zeta.
  destruct (run_link_downs ESP_MAXIMUM_RETRY (Z.to_nat ESP_MAXIMUM_RETRY)
              Hmax w) as [Hc Ht]; [lia | lia |].
  cbv zeta in Hc, Ht. rewrite Z2Nat.id in Hc by lia.
  split; [exact Ht | split].
  - intros later Hq. apply link_down_exhausted.
    apply run_stays_exhausted; [assumption | assumption | lia | lia].
  - intros w'. apply link_up_resets.
Qed.

Lemma event_handler_retry_budget_witness :
  let run := dispatch 5 in
  let handler ev := event_handler 5 (fst ev) (snd ev) in
  let w1 := run (repeat link_down (Z.to_nat 5)) boot_world in
  connect_attempts (trace w1)
  = (connect_attempts (trace boot_world) + Z.to_nat 5)%nat
  /\ (forall later,
         forallb (fun ev => negb (is_link_up ev)) later = true ->
         handler link_down (run later w1) = run later w1)
  /\ (forall w', s_retry_count (handler link_up w') = 0).
Proof.
  apply (event_handler_retry_budget 5 boot_world).
  - unfold INT_MAX. lia.
  - reflexivity.
Defined.

(** C9.  Every step of the event handler keeps the retry counter between
    zero and [ESP_MAXIMUM_RETRY], and so does every sequence of events from
    a counter at zero: the increment is guarded by the counter being below
    the maximum, and the only other write sets it to zero. *)
Theorem event_handler_retry_in_budget (ESP_MAXIMUM_RETRY : Z) :
  ESP_MAXIMUM_RETRY <= INT_MAX ->
  (forall base id w,
      retry_in_budget ESP_MAXIMUM_RETRY w ->
      retry_in_budget ESP_MAXIMUM_RETRY
        (event_handler ESP_MAXIMUM_RETRY base id w))
  /\ (0 <= ESP_MAXIMUM_RETRY ->
      forall evs,
        retry_in_budget ESP_MAXIMUM_RETRY
          (dispatch ESP_MAXIMUM_RETRY evs boot_world)).
Proof.
  intros Hmax. split.
  - intros base id w. now apply handler_in_budget.
  - intros Hmin evs. apply run_in_budget; [assumption|].
    unfold retry_in_budget. cbn. lia.
Qed.

Lemma event_handler_retry_in_budget_witness :
  retry_in_budget 5
    (dispatch 5 [link_down; link_down; link_up; link_down] boot_world)
  /\ s_retry_count
       (dispatch 5 [link_down; link_down; link_up; link_down] boot_world)
     = 1.
Proof.
  split.
  - apply (event_handler_retry_in_budget 5); unfold INT_MAX; lia.
  - reflexivity.
Defined.

(* ================================================================== *)
(** * Start-up: the locator gate in front of the session *)
(* ================================================================== *)

Lemma regcomp_locator_pattern :
  regcomp locator_pattern = inl (mk_regex_t true true locator_body).
Proof. vm_compute. reflexivity. Qed.

Lemma is_valid_locator_run (url : string) (w : world) :
  fst (is_valid_locator url w) = locator_status url
  /\ session_calls (trace (snd (is_valid_locator url w)))
     = session_calls (trace w).
Proof.
  unfold locator_status, is_valid_locator.
  rewrite regcomp_locator_pattern. cbn [fst snd]. split; [reflexivity|].
  destruct (negb _); [|reflexivity].
  destruct w as [c b r g t]. run_world.
  unfold session_calls. rewrite filter_app. cbn. apply app_nil_r.
Qed.

Lemma locator_status_regexec (url : string) :
  locator_status url = regexec (mk_regex_t true true locator_body) url.
Proof.
  unfold locator_status, is_valid_locator.
  now rewrite regcomp_locator_pattern.
Qed.

Lemma session_calls_emit (e : event) (w : world) :
  is_session_call e = false ->
  session_calls (trace (emit e w)) = session_calls (trace w).
Proof.
  intros He. destruct w as [c b r g t]. run_world.
  unfold session_calls. rewrite filter_app. cbn [filter].
  rewrite He. apply app_nil_r.
Qed.

Lemma session_calls_event_handler
  (max : Z) (base : esp_event_base_t) (id : Z) (w : world) :
  session_calls (trace (event_handler max base id w))
  = session_calls (trace w).
Proof.
  unfold event_handler.
  repeat match goal with
         | |- context [if ?b then _ else _] => destruct b
         end;
    try reflexivity;
    destruct w as [c b r g t]; run_world;
    unfold session_calls; rewrite filter_app; cbn; apply app_nil_r.
Qed.

Lemma quiet_bind_step {A B} (m : M A) (k : A -> M B) :
  quiet is_step m ->
  (forall a, quiet is_step (k a)) ->
  quiet is_step (bind m k).
Proof.
  intros Hm Hk w. unfold bind.
  destruct (Hm w) as [Ht Ho]. destruct (m w) as [o w1].
  cbn [fst snd] in Ht, Ho.
  destruct o; cbn [fst snd]; try (split; [exact Ht | exact Ho]).
  destruct (Hk a w1) as [Ht' Ho']. split; [congruence | exact Ho'].
Qed.

Lemma quiet_bind_failure {A B} (m : M A) (k : A -> M B) :
  quiet is_step m ->
  (forall a, quiet is_failure (k a)) ->
  quiet is_failure (bind m k).
Proof.
  intros Hm Hk w. unfold bind.
  destruct (Hm w) as [Ht Ho]. destruct (m w) as [o w1].
  cbn [fst snd] in Ht, Ho.
  destruct o; cbn [fst snd] in *;
    try (split; [exact Ht | first [exact Ho | contradiction]]).
  destruct (Hk a w1) as [Ht' Ho']. split; [congruence | exact Ho'].
Qed.

Lemma quiet_ret {A} (a : A) : quiet is_step (ret a).
Proof. intros w. now split. Qed.

Lemma quiet_abort {A} : quiet is_step (@abort A).
Proof. intros w. now split. Qed.

Lemma quiet_act (a : action) :
  (forall w, session_calls (trace (a w)) = session_calls (trace w)) ->
  quiet is_step (act a).
Proof. intros H w. split; [apply H | exact I]. Qed.

Lemma quiet_emit (e : event) :
  is_session_call e = false -> quiet is_step (act (emit e)).
Proof. intros He. apply quiet_act. intros w. now apply session_calls_emit. Qed.

Lemma quiet_if {A} (post : outcome A -> Prop) (b : bool) (m1 m2 : M A) :
  quiet post m1 -> quiet post m2 -> quiet post (if b then m1 else m2).
Proof. now destruct b. Qed.

Lemma quiet_when (b : bool) (m : M unit) :
  quiet is_step m -> quiet is_step (when b m).
Proof. intros H. unfold when. apply quiet_if; [exact H | apply quiet_ret]. Qed.

Lemma quiet_checked (E : env) (name : string) (n : nat) :
  quiet is_step (checked E name n).
Proof.
  unfold checked. apply quiet_bind_step.
  - now apply quiet_emit.
  - intros _. apply quiet_if; [apply quiet_ret | apply quiet_abort].
Qed.

Lemma quiet_nvs_flash_init (E : env) (n : nat) :
  quiet is_step
    (call (fun w => (esp_result E "nvs_flash_init" n,
                     emit (ECall "nvs_flash_init") w))).
Proof.
  intros w. unfold call. cbn [fst snd]. split; [|exact I].
  now apply session_calls_emit.
Qed.

Lemma quiet_wait_bits (max : Z) (evs : list esp_event) :
  quiet is_step (xEventGroupWaitBits max evs).
Proof.
  induction evs as [|ev rest IH]; intros w; cbn [xEventGroupWaitBits];
    destruct (connected_bit_set w); cbn [fst snd]; try now split.
  destruct (IH (event_handler max (fst ev) (snd ev) w)) as [Ht Ho].
  split; [|exact Ho].
  now rewrite Ht, session_calls_event_handler.
Qed.

(** Walks a start-up sequence by its syntax and closes the steps that
    only log or call a checked function. *)
Ltac quiet_walk gate :=
  lazymatch goal with
  | |- quiet is_failure (bind (call (is_valid_locator _)) _) => gate
  | |- quiet is_failure (bind _ _) =>
      apply quiet_bind_failure; [quiet_walk gate | intros ?; quiet_walk gate]
  | |- quiet is_step (bind _ _) =>
      apply quiet_bind_step; [quiet_walk gate | intros ?; quiet_walk gate]
  | |- quiet _ (checked _ _ _) => apply quiet_checked
  | |- quiet _ (xEventGroupWaitBits _ _) => apply quiet_wait_bits
  | |- quiet _ (when _ _) => apply quiet_when; quiet_walk gate
  | |- quiet _ (ret _) => apply quiet_ret
  | |- quiet _ abort => apply quiet_abort
  | |- quiet _ (if _ then _ else _) => apply quiet_if; quiet_walk gate
  | |- quiet _ (act (emit _)) => apply quiet_emit; reflexivity
  | |- quiet _ (act (ESP_LOGI _ _)) => apply quiet_emit; reflexivity
  | |- quiet _ (act (ESP_LOGE _ _)) => apply quiet_emit; reflexivity
  | |- quiet _ (call (fun w => (esp_result _ _ _, _))) =>
      apply quiet_nvs_flash_init
  | |- _ => idtac
  end.

Lemma quiet_wifi_init_sta (max : Z) (E : env) :
  quiet is_step (wifi_init_sta max E).
Proof.
  unfold wifi_init_sta. quiet_walk idtac.
  - apply quiet_act. intros w. unfold seq.
    destruct (emit _ w) as [c b r g t] eqn:He.
    apply (f_equal trace) in He. cbn [trace] in He.
    unfold set_event_group. cbn [trace]. rewrite <- He.
    now apply session_calls_emit.
  - apply quiet_act. now intros [c b r g t].
Qed.

(** The gate: with a locator that fails validation, what follows the
    validation is never run. *)
Lemma quiet_locator_gate (url : string) (rest : M unit) :
  locator_status url <> 0 ->
  quiet is_failure
    (valid <- call (is_valid_locator url) ;;;
     when (negb (valid =? 0))
          (act (ESP_LOGE
             "Invalid locator format. Please use 'tcp/<ip>:<port>#<interface>' format."
             []) ;;;
           exit (-1)) ;;;
     rest).
Proof.
  intros Hbad w.
  destruct (is_valid_locator_run url w) as [Hst Htr].
  match goal with
  | |- context [fst (?m w)] =>
      assert (Hrun : exists w',
                 m w = (Exited (-1), w')
                 /\ session_calls (trace w') = session_calls (trace w))
  end.
  { unfold bind, call.
    destruct (is_valid_locator url w) as [valid w1].
    cbn [fst snd] in Hst, Htr. subst valid.
    destruct (Z.eqb_spec (locator_status url) 0) as [E | _];
      [contradiction|].
    cbn [negb when]. unfold act, exit. eexists. split; [reflexivity|].
    rewrite <- Htr. unfold ESP_LOGE. now apply session_calls_emit. }
  destruct Hrun as (w' & -> & Hw'). cbn [fst snd].
  split; [exact Hw' | reflexivity].
Qed.

Lemma app_main_gate (max : Z) (MODE LOCATOR : string) (E : env) :
  locator_status LOCATOR <> 0 ->
  quiet is_failure (app_main max MODE LOCATOR E).
Proof.
  intros Hbad. unfold app_main.
  quiet_walk ltac:(apply quiet_locator_gate; exact Hbad).
  - apply quiet_wifi_init_sta.
  - intros w. destruct (s_is_wifi_connected w); now split.
  - apply quiet_act. intros w. unfold gpio_init, seq.
    now rewrite !session_calls_emit.
Qed.

(** ** Running the start-up sequence when the libraries succeed *)

Lemma bind_act {B} (a : action) (k : unit -> M B) (w : world) :
  bind (act a) k w = k tt (a w).
Proof. reflexivity. Qed.

Lemma bind_ret {A B} (a : A) (k : A -> M B) (w : world) :
  bind (ret a) k w = k a w.
Proof. reflexivity. Qed.

Lemma bind_returns {A B} (m : M A) (k : A -> M B) (w w' : world) (a : A) :
  m w = (Ret a, w') -> bind m k w = k a w'.
Proof. unfold bind. now intros ->. Qed.

Lemma bind_checked_ok {B} (E : env) (name : string) (n : nat)
  (k : unit -> M B) (w : world) :
  esp_result E name n = ESP_OK ->
  bind (checked E name n) k w = k tt (emit (ECall name) w).
Proof.
  intros Hok. apply bind_returns. unfold checked.
  rewrite bind_act, Hok. reflexivity.
Qed.

Lemma land_lor_bit0 (b : Z) : Z.land (Z.lor b 1) 1 = 1.
Proof.
  rewrite Z.land_lor_distr_l.
  change 1 with (Z.ones 1) at 1. rewrite Z.land_ones by lia.
  change (Z.land 1 1) with 1. change (2 ^ 1) with 2.
  destruct (Z.mod_pos_bound b 2 ltac:(lia)) as [Hlo Hhi].
  assert (H : b mod 2 = 0 \/ b mod 2 = 1) by lia.
  now destruct H as [-> | ->].
Qed.

Lemma link_up_sets_bit (max : Z) (w : world) :
  connected_bit_set (event_handler max (fst link_up) (snd link_up) w) = true.
Proof.
  unfold event_handler. cbn [fst snd link_up event_base_eqb andb].
  rewrite Z.eqb_refl. destruct w as [c b r g t]. run_world.
  unfold connected_bit_set, WIFI_CONNECTED_BIT, BIT0.
  cbn [s_event_group_handler]. now rewrite land_lor_bit0.
Qed.

Lemma wait_bits_connected (max : Z) (evs : list esp_event) (w : world) :
  connected_bit_set w = true ->
  xEventGroupWaitBits max evs w = (Ret (s_event_group_handler w), w).
Proof. intros H. destruct evs; cbn [xEventGroupWaitBits]; now rewrite H. Qed.

(** The wait ends once a link-up event is among the delivered events. *)
Lemma wait_bits_returns (max : Z) (evs : list esp_event) :
  In link_up evs ->
  forall w, exists bits w',
    xEventGroupWaitBits max evs w = (Ret bits, w')
    /\ (Z.land bits WIFI_CONNECTED_BIT =? 0) = false.
Proof.
  induction evs as [|ev rest IH]; intros Hin w; [contradiction|].
  destruct (connected_bit_set w) eqn:Hbit.
  - rewrite (wait_bits_connected _ _ _ Hbit).
    exists (s_event_group_handler w), w. split; [reflexivity|].
    unfold connected_bit_set in Hbit. now apply negb_true_iff in Hbit.
  - cbn [xEventGroupWaitBits]. rewrite Hbit.
    destruct Hin as [-> | Hin]; [|now apply IH].
    pose proof (link_up_sets_bit max w) as Hset.
    rewrite (wait_bits_connected _ _ _ Hset).
    eexists; eexists. split; [reflexivity|].
    unfold connected_bit_set in Hset. now apply negb_true_iff in Hset.
Qed.

Lemma wifi_init_sta_returns (max : Z) (E : env) (w : world) :
  env_ok E ->
  exists w', wifi_init_sta max E w = (Ret tt, w')
             /\ s_is_wifi_connected w' = true.
Proof.
  intros [Hok Hup]. unfold wifi_init_sta.
  rewrite bind_act.
  do 2 rewrite (bind_checked_ok E) by apply Hok.
  rewrite bind_act.
  do 6 rewrite (bind_checked_ok E) by apply Hok.
  match goal with
  | |- context [bind (xEventGroupWaitBits _ _) _ ?w0] =>
      destruct (wait_bits_returns max _ Hup w0) as (bits & w1 & Hwait & Hb)
  end.
  rewrite (bind_returns _ _ _ _ _ Hwait), Hb.
  cbn [negb when]. rewrite bind_act.
  do 2 rewrite (bind_checked_ok E) by apply Hok.
  eexists. split; [reflexivity|].
  now destruct w1.
Qed.

(** With the libraries at their best, a locator that fails validation
    takes [app_main] to [exit(-1)]. *)
Lemma app_main_exits_at_gate
  (max : Z) (MODE LOCATOR : string) (E : env) (w : world) :
  env_ok E ->
  locator_status LOCATOR <> 0 ->
  fst (app_main max MODE LOCATOR E w) = Exited (-1).
Proof.
  intros HE Hbad. pose proof HE as [Hok _]. unfold app_main.
  rewrite bind_act.
  rewrite (bind_returns _ _ _ (emit (ECall "nvs_flash_init") _) ESP_OK)
    by (unfold call; now rewrite Hok).
  change ((ESP_OK =? ESP_ERR_NVS_NO_FREE_PAGES)
          || (ESP_OK =? ESP_ERR_NVS_NEW_VERSION_FOUND)) with false.
  cbv iota.
  rewrite bind_ret. change (ESP_OK =? ESP_OK) with true. cbv iota.
  rewrite bind_ret, bind_act.
  match goal with
  | |- context [bind (wifi_init_sta _ _) _ ?w0] =>
      destruct (wifi_init_sta_returns max E w0 HE) as (w1 & Hwifi & Hconn)
  end.
  rewrite (bind_returns _ _ _ _ _ Hwifi).
  rewrite (bind_returns _ _ _ w1 tt) by now rewrite Hconn.
  do 4 rewrite bind_act.
  match goal with
  | |- context [bind (call (is_valid_locator _)) _ ?w0] =>
      destruct (is_valid_locator_run LOCATOR w0) as [Hst _];
      destruct (is_valid_locator LOCATOR w0) as [valid w2] eqn:Hv
  end.
  cbn [fst] in Hst. subst valid.
  rewrite (bind_returns _ _ _ w2 (locator_status LOCATOR))
    by (unfold call; now rewrite Hv).
  destruct (Z.eqb_spec (locator_status LOCATOR) 0) as [E0 | _];
    [contradiction|].
  reflexivity.
Qed.

Lemma env_up_ok : env_ok env_up.
Proof. split; [reflexivity | cbn; tauto]. Qed.

(** C8.  When the locator fails validation, [app_main] makes no call that
    opens a session or declares a subscriber or a publisher, and it never
    reaches its idle loop: it ends in [exit(-1)], or earlier in an abort or
    in the wait for the network.  With the libraries succeeding and the
    network up it ends in [exit(-1)]. *)
Theorem app_main_invalid_locator_no_session
  (ESP_MAXIMUM_RETRY : Z) (MODE LOCATOR : string) (E : env) (w : world) :
  locator_status LOCATOR <> 0 ->
  let run := app_main ESP_MAXIMUM_RETRY MODE LOCATOR E w in
  session_calls (trace (snd run)) = session_calls (trace w)
  /\ is_failure (fst run)
  /\ (env_ok E -> fst run = Exited (-1)).
Proof.
  intros Hbad run. subst run.
  destruct (app_main_gate ESP_MAXIMUM_RETRY MODE LOCATOR E Hbad w)
    as [Htr Hout].
  repeat split; [exact Htr | exact Hout |].
  intros HE. now apply app_main_exits_at_gate.
Qed.

Lemma app_main_invalid_locator_no_session_witness :
  let run := app_main 5 "client" "tcp/192.168.1.10:7447" env_up boot_world in
  session_calls (trace (snd run)) = []
  /\ fst run = Exited (-1).
Proof.
  assert (Hbad : locator_status "tcp/192.168.1.10:7447" <> 0)
    by (vm_compute; discriminate).
  destruct (app_main_invalid_locator_no_session
              5 "client" "tcp/192.168.1.10:7447" env_up boot_world Hbad)
    as (Htr & _ & Hexit).
  split; [exact Htr | exact (Hexit env_up_ok)].
Defined.

(** C4 (code defect).  The validator runs the pattern on every locator,
    the empty one too, and the pattern does not match the empty string:
    [is_valid_locator] returns [REG_NOMATCH] for it.  With the locator of
    config.h, [app_main] therefore ends in [exit(-1)] in front of the
    session, although the comparison of [LOCATOR] with the empty string
    behind the validation is written for an empty locator. *)
Theorem is_valid_locator_rejects_empty :
  (forall w, fst (is_valid_locator EmptyString w) = REG_NOMATCH)
  /\ (forall max E w,
         env_ok E ->
         let run := app_main max config_h_MODE config_h_LOCATOR E w in
         fst run = Exited (-1)
         /\ session_calls (trace (snd run)) = session_calls (trace w)).
Proof.
  assert (Hbad : locator_status EmptyString <> 0)
    by (vm_compute; discriminate).
  split.
  - intros w. now rewrite (proj1 (is_valid_locator_run EmptyString w)).
  - intros max E w HE run. subst run. split.
    + now apply app_main_exits_at_gate.
    + now apply app_main_gate.
Qed.

Lemma is_valid_locator_rejects_empty_witness :
  fst (app_main 5 config_h_MODE config_h_LOCATOR env_up boot_world)
  = Exited (-1)
  /\ session_calls
       (trace (snd (app_main 5 config_h_MODE config_h_LOCATOR env_up
                             boot_world))) = [].
Proof.
  exact (proj2 is_valid_locator_rejects_empty 5 env_up boot_world env_up_ok).
Defined.

(* ================================================================== *)
(** * The locator pattern *)
(* ================================================================== *)

(** ** The derivative matcher decides the language *)

Lemma nullable_spec (r : regex) : nullable r = true <-> Lang r [].
Proof.
  split.
  - induction r; cbn [nullable]; intros H; try discriminate.
    + constructor.
    + apply andb_true_iff in H as [H1 H2].
      change (@nil ascii) with (@nil ascii ++ []). constructor; auto.
    + apply orb_true_iff in H as [H | H];
        [apply Lang_AltL | apply Lang_AltR]; auto.
    + constructor.
  - intros H. remember [] as s eqn:Es.
    induction H; cbn [nullable]; try reflexivity; try discriminate.
    + apply app_eq_nil in Es as [-> ->].
      now rewrite IHLang1, IHLang2.
    + now rewrite IHLang.
    + rewrite IHLang by assumption. apply orb_true_r.
Qed.

Lemma deriv_sound (c : ascii) (r : regex) :
  forall s, Lang (deriv c r) s -> Lang r (c :: s).
Proof.
  induction r; cbn [deriv]; intros s H.
  - inversion H.
  - inversion H.
  - destruct (in_ranges c r) eqn:Hc; inversion H; subst. now constructor.
  - destruct (nullable r1) eqn:Hn.
    + inversion H as [| | | ? ? ? H1 | ? ? ? H2 | |]; subst.
      * inversion H1; subst.
        change (c :: ?a ++ ?b) with ((c :: a) ++ b). constructor; auto.
      * change (c :: s) with ([] ++ c :: s).
        constructor; [now apply nullable_spec | auto].
    + inversion H; subst.
      change (c :: ?a ++ ?b) with ((c :: a) ++ b). constructor; auto.
  - inversion H; subst; [apply Lang_AltL | apply Lang_AltR]; auto.
  - inversion H; subst.
    change (c :: ?a ++ ?b) with ((c :: a) ++ b). constructor; auto.
Qed.

Lemma deriv_complete (c : ascii) (r : regex) (s : list ascii) :
  Lang r (c :: s) -> Lang (deriv c r) s.
Proof.
  intros H. remember (c :: s) as cs eqn:E. revert s E.
  induction H as [ | rs c0 Hc | r1 r2 s1 s2 H1 IH1 H2 IH2
                 | r1 r2 s0 H1 IH1 | r1 r2 s0 H2 IH2
                 | r0 | r0 s1 s2 H1 IH1 H2 IH2 ];
    intros t E; cbn [deriv]; try discriminate.
  - injection E as -> <-. rewrite Hc. constructor.
  - destruct s1 as [|c1 s1'].
    + cbn [app] in E. subst s2.
      apply nullable_spec in H1. rewrite H1.
      apply Lang_AltR. now apply IH2.
    + injection E as -> <-.
      destruct (nullable r1).
      * apply Lang_AltL. constructor; auto.
      * constructor; auto.
  - apply Lang_AltL. auto.
  - apply Lang_AltR. auto.
  - destruct s1 as [|c1 s1'].
    + cbn [app] in E. now apply IH2.
    + injection E as -> <-. constructor; auto.
Qed.

(** The derivative matcher decides the language. *)
Lemma matches_spec (s : list ascii) :
  forall r, matches r s = true <-> Lang r s.
Proof.
  induction s as [|c s IH]; intros r; cbn [matches].
  - apply nullable_spec.
  - rewrite IH. split; [apply deriv_sound | apply deriv_complete].
Qed.

(** ** Languages of the derived forms *)

Lemma Lang_Eps_inv (s : list ascii) : Lang Eps s -> s = [].
Proof. now inversion 1. Qed.

Lemma Lang_Cat_inv (r1 r2 : regex) (s : list ascii) :
  Lang (Cat r1 r2) s ->
  exists s1 s2, s = s1 ++ s2 /\ Lang r1 s1 /\ Lang r2 s2.
Proof. inversion 1; subst. eauto. Qed.

Lemma in_range_single (c d : ascii) :
  in_ranges c [(d, d)] = true <-> c = d.
Proof.
  unfold in_ranges, in_range. cbn [existsb fst snd].
  rewrite orb_false_r, andb_true_iff, !Nat.leb_le. split.
  - intros [H1 H2].
    rewrite <- (ascii_nat_embedding c), <- (ascii_nat_embedding d).
    f_equal. lia.
  - intros ->. lia.
Qed.

Lemma Lang_lit (c : ascii) (s : list ascii) : Lang (lit c) s <-> s = [c].
Proof.
  unfold lit. split.
  - inversion 1; subst. f_equal. now apply in_range_single.
  - intros ->. constructor. now apply in_range_single.
Qed.

Lemma Lang_lit_cat (c : ascii) (r : regex) (s : list ascii) :
  Lang (Cat (lit c) r) s <-> exists s', s = c :: s' /\ Lang r s'.
Proof.
  split.
  - intros H. apply Lang_Cat_inv in H as (s1 & s2 & -> & H1 & H2).
    apply Lang_lit in H1 as ->. now exists s2.
  - intros (s' & -> & H). change (c :: s') with ([c] ++ s').
    constructor; [now apply Lang_lit | exact H].
Qed.

Lemma Lang_star_sym (rs : ranges) (s : list ascii) :
  Lang (Star (Sym rs)) s <-> all_in rs s.
Proof.
  split.
  - intros H. remember (Star (Sym rs)) as r eqn:E.
    induction H; try discriminate; [constructor|].
    injection E as ->. inversion H; subst.
    constructor; [assumption | now apply IHLang2].
  - induction 1 as [|c s Hc _ IH]; [constructor|].
    change (c :: s) with ([c] ++ s). constructor; [now constructor | exact IH].
Qed.

Lemma Lang_plus_sym (rs : ranges) (s : list ascii) :
  Lang (plus (Sym rs)) s <-> s <> [] /\ all_in rs s.
Proof.
  unfold plus. split.
  - intros H. apply Lang_Cat_inv in H as (s1 & s2 & -> & H1 & H2).
    inversion H1; subst. apply Lang_star_sym in H2.
    split; [discriminate | now constructor].
  - intros [Hne H]. destruct H as [|c s Hc Hs]; [contradiction|].
    change (c :: s) with ([c] ++ s).
    constructor; [now constructor | now apply Lang_star_sym].
Qed.

Lemma Lang_opt_sym (rs : ranges) (s : list ascii) :
  Lang (opt (Sym rs)) s <->
  s = [] \/ exists c, s = [c] /\ in_ranges c rs = true.
Proof.
  unfold opt. split.
  - inversion 1 as [| | | ? ? ? H1 | ? ? ? H2 | |]; subst.
    + left. now apply Lang_Eps_inv.
    + right. inversion H2; subst. eauto.
  - intros [-> | (c & -> & Hc)].
    + apply Lang_AltL. constructor.
    + apply Lang_AltR. now constructor.
Qed.

(** [[...]{1,3}] *)
Lemma Lang_bounded_sym_1_3 (rs : ranges) (s : list ascii) :
  Lang (bounded (Sym rs) 1 3) s <->
  (1 <= List.length s <= 3)%nat /\ all_in rs s.
Proof.
  cbv [bounded power Nat.sub]. fold (opt (Sym rs)). split.
  - intros H.
    apply Lang_Cat_inv in H as (s1 & t1 & -> & H1 & H).
    apply Lang_Cat_inv in H as (s2 & t2 & -> & H2 & H).
    apply Lang_Cat_inv in H as (s3 & t3 & -> & H3 & H).
    apply Lang_Eps_inv in H as ->.
    inversion H1; subst.
    apply Lang_opt_sym in H2 as [-> | (c2 & -> & Hc2)];
      apply Lang_opt_sym in H3 as [-> | (c3 & -> & Hc3)];
      cbn [app List.length]; (split; [lia | repeat constructor; assumption]).
  - intros [Hlen Hall].
    destruct s as [|c1 [|c2 [|c3 [|c4 s]]]]; cbn [List.length] in Hlen;
      try lia.
    + inversion Hall; subst.
      change [c1] with ([c1] ++ [] ++ [] ++ []).
      repeat constructor; try assumption;
        apply Lang_opt_sym; now left.
    + inversion Hall as [|? ? ? Hall']; subst. inversion Hall'; subst.
      change [c1; c2] with ([c1] ++ [c2] ++ [] ++ []).
      constructor; [now constructor|].
      constructor; [apply Lang_opt_sym; right; eauto|].
      constructor; [apply Lang_opt_sym; now left | constructor].
    + inversion Hall as [|? ? ? Hall']; subst.
      inversion Hall' as [|? ? ? Hall'']; subst. inversion Hall''; subst.
      change [c1; c2; c3] with ([c1] ++ [c2] ++ [c3] ++ []).
      constructor; [now constructor|].
      constructor; [apply Lang_opt_sym; right; eauto|].
      constructor; [apply Lang_opt_sym; right; eauto | constructor].
Qed.

(** ** The compiled pattern has the shape the spec asks for *)

Lemma Lang_octet_dot (s : list ascii) :
  Lang octet_dot s <-> exists o, octet_chars o /\ s = o ++ ["."%char].
Proof.
  unfold octet_dot, digit. split.
  - intros H. apply Lang_Cat_inv in H as (o & d & -> & Ho & Hd).
    apply Lang_bounded_sym_1_3 in Ho. apply Lang_lit in Hd as ->.
    now exists o.
  - intros (o & Ho & ->). constructor.
    + now apply Lang_bounded_sym_1_3.
    + now apply Lang_lit.
Qed.

Lemma Lang_octets (s : list ascii) :
  Lang (bounded octet_dot 3 3) s <->
  exists o1 o2 o3,
    octet_chars o1 /\ octet_chars o2 /\ octet_chars o3
    /\ s = o1 ++ "."%char :: o2 ++ "."%char :: o3 ++ ["."%char].
Proof.
  cbv [bounded power Nat.sub]. split.
  - intros H.
    apply Lang_Cat_inv in H as (g1 & t1 & -> & H1 & H).
    apply Lang_Cat_inv in H as (g2 & t2 & -> & H2 & H).
    apply Lang_Cat_inv in H as (g3 & t3 & -> & H3 & H).
    apply Lang_Eps_inv in H as ->.
    apply Lang_octet_dot in H1 as (o1 & Ho1 & ->).
    apply Lang_octet_dot in H2 as (o2 & Ho2 & ->).
    apply Lang_octet_dot in H3 as (o3 & Ho3 & ->).
    exists o1, o2, o3. repeat (split; [assumption|]).
    rewrite app_nil_r. now rewrite <- !app_assoc.
  - intros (o1 & o2 & o3 & Ho1 & Ho2 & Ho3 & ->).
    replace (o1 ++ "."%char :: o2 ++ "."%char :: o3 ++ ["."%char])
      with ((o1 ++ ["."%char]) ++ (o2 ++ ["."%char])
            ++ (o3 ++ ["."%char]) ++ [])
      by (rewrite app_nil_r; now rewrite <- !app_assoc).
    repeat (constructor; [apply Lang_octet_dot; eauto|]). constructor.
Qed.

Lemma Lang_locator_body (s : list ascii) :
  Lang locator_body s <->
  exists o1 o2 o3 o4 port iface,
    octet_chars o1 /\ octet_chars o2 /\ octet_chars o3 /\ octet_chars o4
    /\ (port <> [] /\ all_in digit_ranges port)
    /\ (iface <> [] /\ all_in iface_ranges iface)
    /\ s = list_ascii_of_string "tcp/"
           ++ o1 ++ "."%char :: o2 ++ "."%char :: o3 ++ "."%char :: o4
           ++ ":"%char :: port ++ list_ascii_of_string "#iface=" ++ iface.
Proof.
  unfold locator_body. split.
  - intros H.
    do 4 (apply Lang_lit_cat in H as (? & -> & H)).
    apply Lang_Cat_inv in H as (g & ? & -> & Hg & H).
    apply Lang_octets in Hg as (o1 & o2 & o3 & Ho1 & Ho2 & Ho3 & ->).
    apply Lang_Cat_inv in H as (o4 & ? & -> & Ho4 & H).
    apply Lang_bounded_sym_1_3 in Ho4.
    apply Lang_lit_cat in H as (? & -> & H).
    apply Lang_Cat_inv in H as (port & ? & -> & Hport & H).
    apply Lang_plus_sym in Hport.
    do 7 (apply Lang_lit_cat in H as (? & -> & H)).
    apply Lang_plus_sym in H.
    match type of H with
    | _ /\ all_in _ ?iface => exists o1, o2, o3, o4, port, iface
    end.
    repeat (split; [assumption|]).
    cbn [list_ascii_of_string app]. do 4 f_equal.
    repeat first [rewrite <- app_assoc | rewrite <- app_comm_cons].
    reflexivity.
  - intros (o1 & o2 & o3 & o4 & port & iface
            & Ho1 & Ho2 & Ho3 & Ho4 & Hport & Hiface & ->).
    cbn [list_ascii_of_string app].
    do 4 (apply Lang_lit_cat; eexists; split; [reflexivity|]).
    replace (o1 ++ "."%char :: o2 ++ "."%char :: o3 ++ "."%char :: o4
             ++ ":"%char :: port ++ "#"%char :: "i"%char :: "f"%char
             :: "a"%char :: "c"%char :: "e"%char :: "="%char :: iface)
      with ((o1 ++ "."%char :: o2 ++ "."%char :: o3 ++ ["."%char])
            ++ o4 ++ ":"%char :: port ++ "#"%char :: "i"%char :: "f"%char
            :: "a"%char :: "c"%char :: "e"%char :: "="%char :: iface)
      by (repeat first [rewrite <- app_assoc | rewrite <- app_comm_cons];
          reflexivity).
    constructor; [apply Lang_octets; exists o1, o2, o3; auto|].
    constructor; [now apply Lang_bounded_sym_1_3|].
    apply Lang_lit_cat; eexists; split; [reflexivity|].
    constructor; [now apply Lang_plus_sym|].
    do 7 (apply Lang_lit_cat; eexists; split; [reflexivity|]).
    now apply Lang_plus_sym.
Qed.

(** ** From characters to strings *)

Lemma list_ascii_of_string_app (a b : string) :
  list_ascii_of_string (a ++ b)
  = list_ascii_of_string a ++ list_ascii_of_string b.
Proof. induction a as [|c a IH]; cbn; now rewrite ?IH. Qed.

Lemma list_ascii_of_string_length (s : string) :
  List.length (list_ascii_of_string s) = String.length s.
Proof. induction s as [|c s IH]; cbn; now rewrite ?IH. Qed.

Lemma list_ascii_of_string_inj (a b : string) :
  list_ascii_of_string a = list_ascii_of_string b -> a = b.
Proof.
  intros H.
  rewrite <- (string_of_list_ascii_of_string a),
          <- (string_of_list_ascii_of_string b).
  now rewrite H.
Qed.

Lemma list_ascii_of_string_nil (s : string) :
  list_ascii_of_string s <> [] <-> s <> EmptyString.
Proof. destruct s; cbn; split; intros H; congruence. Qed.

Lemma code_between_same (d c : ascii) : code_between d d c <-> c = d.
Proof.
  unfold code_between. split.
  - intros H.
    rewrite <- (ascii_nat_embedding c), <- (ascii_nat_embedding d).
    f_equal. lia.
  - intros ->. lia.
Qed.

Lemma in_range_between (c lo hi : ascii) :
  in_range c (lo, hi) = true <-> code_between lo hi c.
Proof.
  unfold in_range, code_between. cbn [fst snd].
  now rewrite andb_true_iff, !Nat.leb_le.
Qed.

Lemma digit_ranges_spec (c : ascii) :
  in_ranges c digit_ranges = true <-> spec_digit c.
Proof.
  unfold in_ranges, digit_ranges, spec_digit. cbn [existsb].
  now rewrite orb_false_r, in_range_between.
Qed.

Lemma iface_ranges_spec (c : ascii) :
  in_ranges c iface_ranges = true <-> spec_iface_char c.
Proof.
  unfold in_ranges, iface_ranges, spec_iface_char. cbn [existsb].
  rewrite !orb_true_iff, !in_range_between, !code_between_same.
  intuition discriminate.
Qed.

Lemma all_in_chars_all (rs : ranges) (P : ascii -> Prop) (s : string) :
  (forall c, in_ranges c rs = true <-> P c) ->
  all_in rs (list_ascii_of_string s) <-> chars_all P s.
Proof.
  intros H. unfold all_in, chars_all.
  split; apply Forall_impl; intros c; apply H.
Qed.

Lemma octet_chars_spec (s : string) :
  octet_chars (list_ascii_of_string s) <-> spec_octet s.
Proof.
  unfold octet_chars, spec_octet.
  now rewrite list_ascii_of_string_length,
              (all_in_chars_all _ _ s digit_ranges_spec).
Qed.

(** The compiled pattern and the spec's shape describe the same
    strings. *)
Lemma Lang_locator_spec (url : string) :
  Lang locator_body (list_ascii_of_string url) <-> spec_locator url.
Proof.
  rewrite Lang_locator_body. split.
  - intros (o1 & o2 & o3 & o4 & port & iface
            & Ho1 & Ho2 & Ho3 & Ho4 & Hport & Hiface & E).
    exists (string_of_list_ascii o1), (string_of_list_ascii o2),
           (string_of_list_ascii o3), (string_of_list_ascii o4),
           (string_of_list_ascii port), (string_of_list_ascii iface).
    unfold spec_port, spec_iface.
    rewrite <- !octet_chars_spec, <- !list_ascii_of_string_nil.
    rewrite <- (all_in_chars_all _ _ _ digit_ranges_spec),
            <- (all_in_chars_all _ _ _ iface_ranges_spec).
    rewrite !list_ascii_of_string_of_list_ascii.
    repeat (split; [assumption|]).
    apply list_ascii_of_string_inj.
    rewrite E, !list_ascii_of_string_app,
            !list_ascii_of_string_of_list_ascii.
    reflexivity.
  - intros (o1 & o2 & o3 & o4 & port & iface
            & Ho1 & Ho2 & Ho3 & Ho4 & Hport & Hiface & ->).
    exists (list_ascii_of_string o1), (list_ascii_of_string o2),
           (list_ascii_of_string o3), (list_ascii_of_string o4),
           (list_ascii_of_string port), (list_ascii_of_string iface).
    unfold spec_port, spec_iface in *.
    rewrite !octet_chars_spec, !list_ascii_of_string_nil.
    rewrite (all_in_chars_all _ _ _ digit_ranges_spec),
            (all_in_chars_all _ _ _ iface_ranges_spec).
    repeat (split; [assumption|]).
    rewrite !list_ascii_of_string_app. reflexivity.
Qed.

Lemma Lang_anchored (r : regex) (s : list ascii) :
  Lang (Cat Eps (Cat r Eps)) s <-> Lang r s.
Proof.
  split.
  - intros H. apply Lang_Cat_inv in H as (s1 & t & -> & H1 & H).
    apply Lang_Cat_inv in H as (s2 & s3 & -> & H2 & H3).
    apply Lang_Eps_inv in H1 as ->. apply Lang_Eps_inv in H3 as ->.
    now rewrite app_nil_r.
  - intros H. replace s with ([] ++ s ++ []) by (cbn; apply app_nil_r).
    repeat constructor. exact H.
Qed.

(** The status of a locator: 0 exactly for the C strings of the spec's
    shape. *)
Lemma locator_status_spec (url : string) :
  is_c_string url ->
  locator_status url = 0 <-> spec_locator url.
Proof.
  intros Hc. rewrite locator_status_regexec. unfold regexec.
  cbn [re_bol re_eol re_body]. rewrite (c_str_no_nul url Hc).
  rewrite <- Lang_locator_spec, <- Lang_anchored, <- matches_spec.
  destruct (matches _ _); [tauto|].
  unfold REG_NOMATCH. split; discriminate.
Qed.

Lemma locator_status_values (url : string) :
  locator_status url = 0 \/ locator_status url = REG_NOMATCH.
Proof.
  rewrite locator_status_regexec. unfold regexec.
  destruct (matches _ _); auto.
Qed.

Lemma is_c_string_forallb (s : string) :
  forallb (fun c => negb (Ascii.eqb c NUL)) (list_ascii_of_string s) = true ->
  is_c_string s.
Proof.
  unfold is_c_string. rewrite forallb_forall. intros H Hin.
  specialize (H NUL Hin). now rewrite Ascii.eqb_refl in H.
Qed.

(** C5.  For a non-empty locator (a C string), [is_valid_locator] returns
    0 exactly when the whole string has the shape
    [tcp/<octet>.<octet>.<octet>.<octet>:<port>#iface=<name>], with one to
    three digits per octet, one or more digits of port and a non-empty
    name over letters, digits, underscore and hyphen.  Octets above 255
    pass; a locator without its protocol, an octet, its port or its
    interface part does not. *)
Theorem is_valid_locator_spec (w : world) :
  (forall url,
      is_c_string url ->
      url <> EmptyString ->
      fst (is_valid_locator url w) = 0 <-> spec_locator url)
  /\ fst (is_valid_locator "tcp/192.168.1.10:7447#iface=eth0" w) = 0
  /\ fst (is_valid_locator "tcp/192.168.1.10:7447" w) <> 0
  /\ fst (is_valid_locator "tcp/999.999.999.999:7447#iface=eth0" w) = 0
  /\ fst (is_valid_locator "192.168.1.10:7447#iface=eth0" w) <> 0
  /\ fst (is_valid_locator "tcp/192.168.1:7447#iface=eth0" w) <> 0
  /\ fst (is_valid_locator "tcp/192.168.1.10#iface=eth0" w) <> 0
  /\ fst (is_valid_locator "xtcp/192.168.1.10:7447#iface=eth0" w) <> 0
  /\ fst (is_valid_locator "tcp/192.168.1.10:7447#iface=eth0 " w) <> 0.
Proof.
  split.
  - intros url Hc _.
    rewrite (proj1 (is_valid_locator_run url w)).
    now apply locator_status_spec.
  - rewrite !(proj1 (is_valid_locator_run _ w)).
    repeat split; vm_compute; congruence.
Qed.

Lemma is_valid_locator_spec_witness :
  spec_locator "tcp/10.0.0.1:7447#iface=docker0".
Proof.
  apply (proj1 (is_valid_locator_spec boot_world)
               "tcp/10.0.0.1:7447#iface=docker0").
  - apply is_c_string_forallb. reflexivity.
  - discriminate.
  - vm_compute. reflexivity.
Defined.

(** Start-up with a locator of the right shape reaches the idle loop with
    the session open and both declarations made. *)
Example app_main_serves :
  let run := app_main 5 "client" "tcp/192.168.1.10:7447#iface=eth0"
                      env_up boot_world in
  fst run = Idle
  /\ session_calls (trace (snd run))
     = [EOpen; EDeclareSubscriber KEYEXPR; EDeclarePublisher KEYEXPR]
  /\ In (EConfigInsert Z_CONFIG_CONNECT_KEY
                       "tcp/192.168.1.10:7447#iface=eth0")
        (trace (snd run)).
Proof.
  vm_compute. repeat split. tauto.
Qed.

(** The round trip of the spec: on, off, on. *)
Example deliver_round_trip :
  let command value :=
    mk_sample KEYEXPR value "zenoh/string;utf8" (Some "targetValue") None in
  let w := deliver [command "true"; command "false"; command "true"]
                   boot_world in
  publishes (trace w)
  = [("true", "currentValue"); ("false", "currentValue");
     ("true", "currentValue")]
  /\ gpio_level w LED_GPIO = 1.
Proof. vm_compute. split; reflexivity. Qed.

(* ================================================================== *)
(** * Further properties of the receive path *)
(* ================================================================== *)

(** ** The classifier on tags without a terminator *)

Lemma uchar_diff_nonzero (c d : ascii) : c <> d -> uchar c - uchar d <> 0.
Proof. intros Hne H. now apply uchar_diff_zero in H. Qed.

(** Bounded by the length of a tag that holds no terminator, [strncmp]
    tests whether the tag is an initial part of the literal. *)
Lemma strncmp_prefix_iff (tag : string) :
  forall lit,
    is_c_string tag ->
    (strncmp tag lit (String.length tag) =? 0) = String.prefix tag lit.
Proof.
  induction tag as [|c r IH]; intros lit Hc.
  - now destruct lit.
  - apply is_c_string_cons in Hc as [Hnul Hr].
    cbn [String.length]. rewrite strncmp_step. cbn [peek advance].
    destruct lit as [|d l]; cbn [peek advance String.prefix].
    + destruct (Ascii.eqb_spec c NUL) as [E | _]; [contradiction|].
      cbn [negb]. apply Z.eqb_neq. now apply uchar_diff_nonzero.
    + destruct (ascii_dec c d) as [<- | Hne].
      * rewrite Ascii.eqb_refl. cbn [negb].
        destruct (Ascii.eqb_spec c NUL) as [E | _]; [contradiction|].
        now apply IH.
      * destruct (Ascii.eqb_spec c d) as [E | _]; [contradiction|].
        cbn [negb]. apply Z.eqb_neq. now apply uchar_diff_nonzero.
Qed.

(** X1.  For a tag without an embedded terminator the classifier tests
    initial parts: the result is a current value when the tag is an initial
    part of "currentValue" (the empty tag included), a target value when it
    is an initial part of "targetValue", and unknown otherwise. *)
Theorem attachment_handler_c_string_tag
  (sample : z_sample) (tag : string) (w : world) :
  z_sample_attachment sample = Some tag ->
  is_c_string tag ->
  fst (attachment_handler sample w) =
  if String.prefix tag "currentValue" then SIGNAL_TYPE_CURRENT_VALUE
  else if String.prefix tag "targetValue" then SIGNAL_TYPE_TARGET_VALUE
  else SIGNAL_TYPE_UNKNOWN.
Proof.
  intros Ha Hc. unfold attachment_handler. rewrite Ha. cbn [fst].
  now rewrite !strncmp_prefix_iff.
Qed.

Lemma attachment_handler_c_string_tag_witness :
  fst (attachment_handler
         (mk_sample KEYEXPR "true" "zenoh/string;utf8" (Some "targetVal")
                    None) boot_world)
  = SIGNAL_TYPE_TARGET_VALUE.
Proof.
  apply (attachment_handler_c_string_tag
           (mk_sample KEYEXPR "true" "zenoh/string;utf8" (Some "targetVal")
                      None) "targetVal" boot_world eq_refl).
  apply is_c_string_forallb. reflexivity.
Defined.

(** ** The confirmation publisher *)




(** ** Runs of the callback *)

Lemma confirmation_calls (b : bool) :
  forallb is_callback_call (confirmation b) = true.
Proof. now destruct b. Qed.

(** Everything outside the log lines satisfies [P], so everything does
    once the log lines do. *)
Lemma forallb_effects (P : event -> bool) (t : list event) :
  (forall e, is_log e = true -> P e = true) ->
  forallb P (effects t) = true ->
  forallb P t = true.
Proof.
  intros Hlog. induction t as [|e t IH]; [reflexivity|].
  cbn [effects filter forallb]. destruct (is_log e) eqn:He; cbn [negb].
  - intros H. now rewrite (Hlog e He), IH.
  - cbn [forallb]. intros H. apply andb_true_iff in H as [-> H].
    now rewrite IH.
Qed.

Lemma is_log_callback_call (e : event) :
  is_log e = true -> is_callback_call e = true.
Proof. now destruct e. Qed.

Lemma data_handler_calls (sample : z_sample) (w : world) :
  exists new,
    trace (data_handler sample w) = trace w ++ new
    /\ forallb is_callback_call new = true.
Proof.
  destruct (data_handler_run sample w) as (new & Hrun & Heff).
  exists new. rewrite Hrun. split; [reflexivity|].
  apply (forallb_effects _ _ is_log_callback_call). rewrite Heff.
  destruct (command_of sample); [apply confirmation_calls | reflexivity].
Qed.

(** X3.  A run of the callback touches nothing but the LED pin and the
    trace: the Wi-Fi statics and every other pin keep their values, and
    every call it adds is a log line, a level of 0 or 1 on the LED pin, or
    a publish of "true" or "false" under the tag "currentValue". *)
Theorem deliver_frame (samples : list z_sample) :
  forall w,
    let w' := deliver samples w in
    s_is_wifi_connected w' = s_is_wifi_connected w
    /\ s_event_group_handler w' = s_event_group_handler w
    /\ s_retry_count w' = s_retry_count w
    /\ (forall pin, pin <> LED_GPIO -> gpio_level w' pin = gpio_level w pin)
    /\ exists new,
         trace w' = trace w ++ new
         /\ forallb is_callback_call new = true.
Proof.
  induction samples as [|s rest IH]; intros w; cbv zeta.
  - cbn [deliver]. unfold skip. repeat split.
    exists []. now rewrite app_nil_r.
  - cbn [deliver]. unfold seq.
    destruct (IH (data_handler s w)) as (Hc & Hb & Hr & Hg & new' & Ht & Hn).
    destruct (data_handler_calls s w) as (new & Htr & Hnew).
    destruct (data_handler_run s w) as (new0 & Hrun & _).
    assert (Hpins : forall pin, pin <> LED_GPIO ->
                      gpio_level (data_handler s w) pin = gpio_level w pin).
    { intros pin Hpin. rewrite Hrun. cbn [gpio_level].
      destruct (command_of s); [|reflexivity].
      unfold set_pin. now destruct (Z.eqb_spec pin LED_GPIO). }
    rewrite Hc, Hb, Hr, Ht, Htr.
    repeat split; try (now rewrite Hrun).
    + intros pin Hpin. now rewrite (Hg pin Hpin), (Hpins pin Hpin).
    + exists (new ++ new'). split; [now rewrite app_assoc|].
      now rewrite forallb_app, Hnew, Hn.
Qed.

Lemma deliver_frame_witness :
  let command :=
    mk_sample KEYEXPR "true" "zenoh/string;utf8" (Some "targetValue") None in
  gpio_level (deliver [command; command] boot_world) 26
  = gpio_level boot_world 26.
Proof.
  destruct (deliver_frame
              [mk_sample KEYEXPR "true" "zenoh/string;utf8"
                         (Some "targetValue") None;
               mk_sample KEYEXPR "true" "zenoh/string;utf8"
                         (Some "targetValue") None] boot_world)
    as (_ & _ & _ & Hpins & _).
  apply Hpins. discriminate.
Defined.

(** Every publish of a run carries the tag of a current value. *)
Lemma deliver_tagged (samples : list z_sample) :
  forall w payload tag,
    In (payload, tag) (publishes (trace (deliver samples w))) ->
    In (payload, tag) (publishes (trace w)) \/ tag = "currentValue".
Proof.
  induction samples as [|s rest IH]; intros w payload tag Hin;
    [now left|].
  cbn [deliver] in Hin. unfold seq in Hin.
  apply IH in Hin as [Hin | Htag]; [|now right].
  destruct (data_handler_run s w) as (new & Hrun & Heff).
  rewrite Hrun in Hin. cbn [trace] in Hin.
  rewrite <- publishes_effects, effects_app, Heff, publishes_app,
          publishes_effects in Hin.
  apply in_app_or in Hin as [Hin | Hin]; [now left|].
  destruct (command_of s) as [b|]; [|contradiction].
  destruct Hin as [[= _ <-] | []]. now right.
Qed.

(** X4.  Over a run of samples the callback publishes once per command,
    in the order of delivery and with the text of each command, and leaves
    on the LED pin the level of the last command (the level before the run
    when there was none).  Nothing is merged or skipped: a command that
    repeats the current level is driven and published again. *)
Theorem deliver_publishes_commands (samples : list z_sample) :
  forall w,
    publishes (trace (deliver samples w))
    = publishes (trace w)
      ++ map (fun b => (bool_text b, "currentValue")) (commands samples)
    /\ gpio_level (deliver samples w) LED_GPIO
       = final_level (commands samples) (gpio_level w LED_GPIO).
Proof.
  induction samples as [|s rest IH]; intros w.
  - cbn. split; [now rewrite app_nil_r | reflexivity].
  - cbn [deliver commands]. unfold seq.
    destruct (IH (data_handler s w)) as [Hp Hg]. rewrite Hp, Hg.
    destruct (data_handler_run s w) as (new & Hrun & Heff).
    rewrite Hrun. cbn [trace gpio_level].
    rewrite <- (publishes_effects (trace w ++ new)), effects_app, Heff.
    destruct (command_of s) as [b|].
    + rewrite publishes_app, publishes_effects. cbn [map final_level fold_left].
      unfold set_pin. rewrite Z.eqb_refl.
      split; [|reflexivity].
      rewrite <- app_assoc. now destruct b.
    + rewrite app_nil_r, publishes_effects. now split.
Qed.

(** X5.  The device does not act on the echo of its own confirmations:
    every publish the callback makes, delivered back as a sample under any
    key expression and timestamp, is classified as a current value, and the
    callback answers it with no publish and no change of a pin. *)
Theorem deliver_echo_ignored
  (samples : list z_sample) (w : world) (e : event)
  (keyexpr : string) (ts : option Z) (echo : z_sample) (w' : world) :
  publishes (trace w) = [] ->
  In e (trace (deliver samples w)) ->
  echo_of e keyexpr ts = Some echo ->
  signal_type_of echo = SIGNAL_TYPE_CURRENT_VALUE
  /\ publishes (trace (data_handler echo w')) = publishes (trace w')
  /\ gpio_level (data_handler echo w') = gpio_level w'.
Proof.
  intros Hnone Hin Hecho.
  destruct e as [| |payload attachment encoding| | | | | | |];
    try discriminate.
  injection Hecho as <-.
  assert (Htag : attachment = "currentValue").
  { assert (Hp : In (payload, attachment)
                    (publishes (trace (deliver samples w)))).
    { clear - Hin. induction (trace (deliver samples w)) as [|e t IH];
        [contradiction|].
      destruct Hin as [-> | Hin]; [now left|].
      destruct e; cbn [publishes]; auto. right. auto. }
    apply deliver_tagged in Hp as [Hp | Htag]; [|exact Htag].
    rewrite Hnone in Hp. contradiction. }
  subst attachment.
  assert (Hst : signal_type_of
                  (mk_sample keyexpr payload encoding (Some "currentValue") ts)
                = SIGNAL_TYPE_CURRENT_VALUE) by reflexivity.
  split; [exact Hst|].
  destruct (data_handler_run
              (mk_sample keyexpr payload encoding (Some "currentValue") ts)
              w') as (new & Hrun & Heff).
  rewrite command_of_none in Hrun, Heff by (intros Ht; congruence).
  rewrite Hrun. cbn [trace gpio_level]. split; [|reflexivity].
  rewrite <- publishes_effects, effects_app, Heff, app_nil_r.
  apply publishes_effects.
Qed.

Lemma deliver_echo_ignored_witness :
  let command :=
    mk_sample KEYEXPR "true" "zenoh/string;utf8" (Some "targetValue") None in
  let echo :=
    mk_sample KEYEXPR "true" "zenoh/string;utf8" (Some "currentValue")
              (Some 42) in
  let w := deliver [command] boot_world in
  signal_type_of echo = SIGNAL_TYPE_CURRENT_VALUE
  /\ publishes (trace (data_handler echo w)) = publishes (trace w)
  /\ gpio_level (data_handler echo w) = gpio_level w.
Proof.
  apply (deliver_echo_ignored
           [mk_sample KEYEXPR "true" "zenoh/string;utf8"
                      (Some "targetValue") None]
           boot_world
           (EPublisherPut "true" "currentValue" "zenoh/string;utf8")
           KEYEXPR (Some 42)).
  - reflexivity.
  - vm_compute. tauto.
  - reflexivity.
Defined.

(* ================================================================== *)
(** * Further properties of the Wi-Fi event handler *)
(* ================================================================== *)

Lemma count_events_cons (kind : esp_event -> bool) (ev : esp_event)
  (evs : list esp_event) :
  count_events kind (ev :: evs)
  = (if kind ev then 1 else 0) + count_events kind evs.
Proof.
  unfold count_events. cbn [filter].
  destruct (kind ev); cbn [List.length]; lia.
Qed.

Lemma connect_attempts_nil_snoc (t : list event) (e : event) :
  Z.of_nat (connect_attempts (t ++ [e]))
  = Z.of_nat (connect_attempts t)
    + match e with EWifiConnect => 1 | _ => 0 end.
Proof. rewrite connect_attempts_snoc. destruct e; lia. Qed.

(** One event that is not a link-up: the counter and the reassociations
    it adds. *)
Lemma event_handler_step (max : Z) (ev : esp_event) (w : world) :
  max <= INT_MAX ->
  0 <= s_retry_count w ->
  is_link_up ev = false ->
  let w' := event_handler max (fst ev) (snd ev) w in
  let retried := is_link_down ev && (s_retry_count w <? max) in
  s_retry_count w' = s_retry_count w + (if retried then 1 else 0)
  /\ Z.of_nat (connect_attempts (trace w'))
     = Z.of_nat (connect_attempts (trace w))
       + (if is_sta_start ev then 1 else 0)
       + (if retried then 1 else 0).
Proof.
  intros Hmax Hc Hup. destruct ev as [base id].
  unfold event_handler, is_link_up, is_link_down, is_sta_start in *.
  cbn [fst snd] in *. cbv zeta.
  destruct base; cbn [event_base_eqb andb] in *.
  - destruct (Z.eqb_spec id WIFI_EVENT_STA_START) as [-> | Hs].
    + change (WIFI_EVENT_STA_START =? WIFI_EVENT_STA_DISCONNECTED)
        with false.
      destruct w as [c b r g t]. run_world. cbn [andb].
      rewrite connect_attempts_nil_snoc. lia.
    + destruct (id =? WIFI_EVENT_STA_DISCONNECTED).
      * destruct (Z.ltb_spec (s_retry_count w) max).
        -- destruct w as [c b r g t]. run_world.
           cbn [s_retry_count andb] in *.
           rewrite connect_attempts_nil_snoc, wrap_int_small;
             unfold INT_MAX in *; lia.
        -- cbn [andb]. lia.
      * cbn [andb]. lia.
  - rewrite Hup. lia.
  - lia.
Qed.

(** X6.  Between two link-up events the handler starts one reassociation
    for every start event and one for every link-down event as long as the
    counter is below [ESP_MAXIMUM_RETRY]: over a sequence of events without
    a link-up, the counter ends at the smaller of the maximum and the old
    counter plus the number of link-down events, and the calls of
    [esp_wifi_connect] grow by the number of start events plus the growth
    of the counter. *)
Theorem dispatch_counts_reassociations
  (ESP_MAXIMUM_RETRY : Z) (evs : list esp_event) :
  ESP_MAXIMUM_RETRY <= INT_MAX ->
  forallb (fun ev => negb (is_link_up ev)) evs = true ->
  forall w,
    0 <= s_retry_count w <= ESP_MAXIMUM_RETRY ->
    let w' := dispatch ESP_MAXIMUM_RETRY evs w in
    s_retry_count w'
    = Z.min ESP_MAXIMUM_RETRY
            (s_retry_count w + count_events is_link_down evs)
    /\ Z.of_nat (connect_attempts (trace w'))
       = Z.of_nat (connect_attempts (trace w))
         + count_events is_sta_start evs
         + (s_retry_count w' - s_retry_count w).
Proof.
  intros Hmax. induction evs as [|ev rest IH]; intros Hq w Hw; cbv zeta.
  - cbn [dispatch]. unfold skip, count_events. cbn. lia.
  - cbn [forallb] in Hq. apply andb_true_iff in Hq as [Hev Hq].
    apply negb_true_iff in Hev.
    cbn [dispatch]. unfold seq.
    destruct (event_handler_step ESP_MAXIMUM_RETRY ev w Hmax (proj1 Hw) Hev)
      as [Hc Ht].
    cbv zeta in Hc, Ht.
    assert (Hw1 : 0 <= s_retry_count
                         (event_handler ESP_MAXIMUM_RETRY (fst ev) (snd ev) w)
                  <= ESP_MAXIMUM_RETRY).
    { rewrite Hc. destruct (is_link_down ev); cbn [andb]; [|lia].
      destruct (Z.ltb_spec (s_retry_count w) ESP_MAXIMUM_RETRY); lia. }
    destruct (IH Hq _ Hw1) as [Hc' Ht']. cbv zeta in Hc', Ht'.
    rewrite Ht', Hc', Ht, Hc, !count_events_cons.
    assert (Hn : 0 <= count_events is_link_down rest)
      by (unfold count_events; lia).
    destruct (is_link_down ev), (is_sta_start ev); cbn [andb];
      try destruct (Z.ltb_spec (s_retry_count w) ESP_MAXIMUM_RETRY); lia.
Qed.

Lemma dispatch_counts_reassociations_witness :
  let evs := [(WIFI_EVENT, WIFI_EVENT_STA_START);
              link_down; link_down; link_down; link_down] in
  s_retry_count (dispatch 3 evs boot_world) = 3
  /\ Z.of_nat (connect_attempts (trace (dispatch 3 evs boot_world))) = 4.
Proof.
  destruct (dispatch_counts_reassociations 3
              [(WIFI_EVENT, WIFI_EVENT_STA_START);
               link_down; link_down; link_down; link_down]
              ltac:(unfold INT_MAX; lia) eq_refl boot_world
              ltac:(cbn; lia)) as [Hc Ht].
  cbv zeta in Hc, Ht. split.
  - rewrite Hc. reflexivity.
  - rewrite Ht, Hc. reflexivity.
Defined.

Lemma event_handler_bit (max : Z) (ev : esp_event) (w : world) :
  connected_bit_set (event_handler max (fst ev) (snd ev) w)
  = connected_bit_set w || is_link_up ev.
Proof.
  destruct (is_link_up ev) eqn:Hup.
  - rewrite orb_true_r. destruct ev as [base id].
    unfold is_link_up in Hup. cbn [fst snd] in *.
    apply andb_true_iff in Hup as [Hb Hid].
    destruct base; try discriminate. apply Z.eqb_eq in Hid. subst id.
    apply (link_up_sets_bit max w).
  - rewrite orb_false_r. destruct ev as [base id].
    unfold event_handler, is_link_up in *. cbn [fst snd] in *.
    destruct base; cbn [event_base_eqb andb] in *.
    + repeat match goal with
             | |- context [if ?b then _ else _] => destruct b
             end; try reflexivity; now destruct w.
    + rewrite Hup. reflexivity.
    + reflexivity.
Qed.

Lemma event_handler_calls (max : Z) (ev : esp_event) (w : world) :
  gpio_level (event_handler max (fst ev) (snd ev) w) = gpio_level w
  /\ s_is_wifi_connected (event_handler max (fst ev) (snd ev) w)
     = s_is_wifi_connected w
  /\ exists new,
       trace (event_handler max (fst ev) (snd ev) w) = trace w ++ new
       /\ forallb is_wifi_call new = true.
Proof.
  unfold event_handler.
  repeat match goal with
         | |- context [if ?b then _ else _] => destruct b
         end;
    destruct w as [c b r g t]; run_world; repeat split;
    try (exists []; now rewrite app_nil_r);
    eexists; (split; [reflexivity | reflexivity]).
Qed.

(** X7.  The event handler never touches a pin or the connected flag, and
    it makes no call but [esp_wifi_connect] and setting the connected bit.
    It never clears that bit: after a sequence of events the bit is set
    exactly when it was set before or a link-up event was among them. *)
Theorem dispatch_frame (ESP_MAXIMUM_RETRY : Z) (evs : list esp_event) :
  forall w,
    let w' := dispatch ESP_MAXIMUM_RETRY evs w in
    gpio_level w' = gpio_level w
    /\ s_is_wifi_connected w' = s_is_wifi_connected w
    /\ connected_bit_set w' = connected_bit_set w || existsb is_link_up evs
    /\ exists new,
         trace w' = trace w ++ new /\ forallb is_wifi_call new = true.
Proof.
  induction evs as [|ev rest IH]; intros w; cbv zeta.
  - cbn [dispatch existsb]. unfold skip. rewrite orb_false_r.
    repeat split. exists []. now rewrite app_nil_r.
  - cbn [dispatch existsb]. unfold seq.
    destruct (IH (event_handler ESP_MAXIMUM_RETRY (fst ev) (snd ev) w))
      as (Hg & Hc & Hb & new' & Ht & Hn).
    destruct (event_handler_calls ESP_MAXIMUM_RETRY ev w)
      as (Hg1 & Hc1 & new & Ht1 & Hn1).
    rewrite Hg, Hc, Hb, Ht, Hg1, Hc1, Ht1, event_handler_bit.
    repeat split.
    + now rewrite orb_assoc.
    + exists (new ++ new'). split; [now rewrite app_assoc|].
      now rewrite forallb_app, Hn1, Hn.
Qed.

(* ================================================================== *)
(** * Further properties of the start-up sequence *)
(* ================================================================== *)

Lemma bind_ret_inv {A B} (m : M A) (k : A -> M B) (w w' : world) (b : B) :
  bind m k w = (Ret b, w') ->
  exists a w1, m w = (Ret a, w1) /\ k a w1 = (Ret b, w').
Proof.
  unfold bind. destruct (m w) as [[a | c | | |] w1]; try discriminate.
  intros H. now exists a, w1.
Qed.

Lemma act_ret_inv (a : action) (w w1 : world) (u : unit) :
  act a w = (Ret u, w1) -> w1 = a w.
Proof. unfold act. now intros [= _ <-]. Qed.

Lemma checked_ret_inv (E : env) (name : string) (n : nat)
  (w w1 : world) (u : unit) :
  checked E name n w = (Ret u, w1) ->
  w1 = emit (ECall name) w /\ esp_result E name n = ESP_OK.
Proof.
  unfold checked. rewrite bind_act.
  destruct (Z.eqb_spec (esp_result E name n) ESP_OK) as [Hok | _].
  - unfold ret. now intros [= _ <-].
  - discriminate.
Qed.

Lemma bits_emit (e : event) (w : world) :
  s_event_group_handler (emit e w) = s_event_group_handler w.
Proof. now destruct w. Qed.

Lemma connected_emit (e : event) (w : world) :
  s_is_wifi_connected (emit e w) = s_is_wifi_connected w.
Proof. now destruct w. Qed.

(** The wait returns only bits that hold the connected bit. *)
Lemma wait_bits_ret_set (max : Z) (evs : list esp_event) :
  forall w bits w1,
    xEventGroupWaitBits max evs w = (Ret bits, w1) ->
    (Z.land bits WIFI_CONNECTED_BIT =? 0) = false.
Proof.
  induction evs as [|ev rest IH]; intros w bits w1;
    cbn [xEventGroupWaitBits]; destruct (connected_bit_set w) eqn:Hbit;
    try discriminate; try (now apply IH).
  all: intros [= <- _]; unfold connected_bit_set in Hbit;
    now apply negb_true_iff in Hbit.
Qed.

(** From an unset bit the wait returns only behind a link-up event. *)
Lemma wait_bits_ret_link_up (max : Z) (evs : list esp_event) :
  forall w bits w1,
    connected_bit_set w = false ->
    xEventGroupWaitBits max evs w = (Ret bits, w1) ->
    existsb is_link_up evs = true.
Proof.
  induction evs as [|ev rest IH]; intros w bits w1 Hbit;
    cbn [xEventGroupWaitBits existsb]; rewrite Hbit; [discriminate|].
  intros H. destruct (is_link_up ev) eqn:Hup; [reflexivity|].
  apply (IH (event_handler max (fst ev) (snd ev) w) bits w1); [|exact H].
  now rewrite event_handler_bit, Hbit, Hup.
Qed.

Lemma endpoints_app (t1 t2 : list event) :
  endpoints (t1 ++ t2) = endpoints t1 ++ endpoints t2.
Proof.
  induction t1 as [|e t1 IH]; [reflexivity|].
  destruct e; cbn [app endpoints]; try exact IH.
  destruct (key =? Z_CONFIG_MODE_KEY); [exact IH|].
  cbn [app]. now rewrite IH.
Qed.

Lemma endpoints_emit (e : event) (w : world) :
  endpoints [e] = [] ->
  endpoints (trace (emit e w)) = endpoints (trace w).
Proof.
  intros He. destruct w as [c b r g t]. run_world.
  now rewrite endpoints_app, He, app_nil_r.
Qed.

Lemma endpoints_wifi_calls (new : list event) :
  forallb is_wifi_call new = true -> endpoints new = [].
Proof.
  induction new as [|e new IH]; [reflexivity|].
  cbn [forallb]. intros H. apply andb_true_iff in H as [He H].
  destruct e; try discriminate; cbn [endpoints]; auto.
Qed.

Lemma endpoints_event_handler (max : Z) (ev : esp_event) (w : world) :
  endpoints (trace (event_handler max (fst ev) (snd ev) w))
  = endpoints (trace w).
Proof.
  destruct (event_handler_calls max ev w) as (_ & _ & new & -> & Hnew).
  now rewrite endpoints_app, (endpoints_wifi_calls new Hnew), app_nil_r.
Qed.

Lemma endpoints_wait_bits (max : Z) (evs : list esp_event) :
  forall w,
    endpoints (trace (snd (xEventGroupWaitBits max evs w)))
    = endpoints (trace w).
Proof.
  induction evs as [|ev rest IH]; intros w; cbn [xEventGroupWaitBits];
    destruct (connected_bit_set w); try reflexivity.
  now rewrite IH, endpoints_event_handler.
Qed.

Lemma wifi_init_sta_ret_inv (max : Z) (E : env) (w w' : world) (u : unit) :
  wifi_init_sta max E w = (Ret u, w') ->
  s_is_wifi_connected w' = true
  /\ existsb is_link_up (wifi_events E) = true
  /\ endpoints (trace w') = endpoints (trace w).
Proof.
  unfold wifi_init_sta. intros H.
  apply bind_ret_inv in H as (? & w1 & H1 & H). apply act_ret_inv in H1.
  apply bind_ret_inv in H as (? & w2 & H2 & H).
  apply checked_ret_inv in H2 as [H2 _].
  apply bind_ret_inv in H as (? & w3 & H3 & H).
  apply checked_ret_inv in H3 as [H3 _].
  apply bind_ret_inv in H as (? & w4 & H4 & H). apply act_ret_inv in H4.
  apply bind_ret_inv in H as (? & w5 & H5 & H).
  apply checked_ret_inv in H5 as [H5 _].
  apply bind_ret_inv in H as (? & w6 & H6 & H).
  apply checked_ret_inv in H6 as [H6 _].
  apply bind_ret_inv in H as (? & w7 & H7 & H).
  apply checked_ret_inv in H7 as [H7 _].
  apply bind_ret_inv in H as (? & w8 & H8 & H).
  apply checked_ret_inv in H8 as [H8 _].
  apply bind_ret_inv in H as (? & w9 & H9 & H).
  apply checked_ret_inv in H9 as [H9 _].
  apply bind_ret_inv in H as (? & w10 & H10 & H).
  apply checked_ret_inv in H10 as [H10 _].
  apply bind_ret_inv in H as (bits & w11 & Hwait & H).
  assert (Hunset : connected_bit_set w10 = false).
  { unfold connected_bit_set.
    rewrite H10, H9, H8, H7, H6, H5, H4, H3, H2, !bits_emit, H1.
    unfold seq. now destruct (emit _ w). }
  pose proof (wait_bits_ret_link_up _ _ _ _ _ Hunset Hwait) as Hup.
  pose proof (endpoints_wait_bits max (wifi_events E) w10) as Hend.
  rewrite Hwait in Hend. cbn [snd] in Hend.
  rewrite (wait_bits_ret_set _ _ _ _ _ Hwait) in H. cbn [negb when] in H.
  apply bind_ret_inv in H as (? & w12 & H12 & H). apply act_ret_inv in H12.
  apply bind_ret_inv in H as (? & w13 & H13 & H).
  apply checked_ret_inv in H13 as [H13 _].
  apply bind_ret_inv in H as (? & w14 & H14 & H).
  apply checked_ret_inv in H14 as [H14 _].
  apply act_ret_inv in H.
  split; [|split; [exact Hup|]].
  - rewrite H, H14, H13, !connected_emit, H12. now destruct w11.
  - rewrite H, H14, H13, !endpoints_emit by reflexivity.
    rewrite H12.
    replace (trace (set_is_wifi_connected true w11)) with (trace w11)
      by now destruct w11.
    rewrite Hend, H10, H9, H8, H7, H6, H5, H4, H3, H2,
            !endpoints_emit by reflexivity.
    rewrite H1. unfold seq.
    replace (trace (set_event_group 0 (emit (ECall "xEventGroupCreate") w)))
      with (trace (emit (ECall "xEventGroupCreate") w))
      by now destruct w.
    now rewrite endpoints_emit.
Qed.

(** X8.  [wifi_init_sta] returns only with the network up: when it
    returns, the connected flag is set and a link-up event was delivered.
    It never exits and never idles; without a link-up event it ends in the
    wait or in the abort of a failed check.  With every check succeeding
    and a link-up event delivered it does return. *)
Theorem wifi_init_sta_returns_connected
  (ESP_MAXIMUM_RETRY : Z) (E : env) (w : world) :
  let run := wifi_init_sta ESP_MAXIMUM_RETRY E w in
  (fst run = Ret tt ->
   s_is_wifi_connected (snd run) = true
   /\ existsb is_link_up (wifi_events E) = true)
  /\ (existsb is_link_up (wifi_events E) = false ->
      fst run = Blocked \/ fst run = Aborted)
  /\ (env_ok E -> fst run = Ret tt).
Proof.
  cbv zeta.
  assert (Hret : fst (wifi_init_sta ESP_MAXIMUM_RETRY E w) = Ret tt ->
                 s_is_wifi_connected
                   (snd (wifi_init_sta ESP_MAXIMUM_RETRY E w)) = true
                 /\ existsb is_link_up (wifi_events E) = true).
  { destruct (wifi_init_sta ESP_MAXIMUM_RETRY E w) as [out w'] eqn:Hrun.
    cbn [fst snd]. intros ->. now apply wifi_init_sta_ret_inv in Hrun. }
  split; [exact Hret | split].
  - intros Hnone.
    destruct (quiet_wifi_init_sta ESP_MAXIMUM_RETRY E w) as [_ Hstep].
    destruct (fst (wifi_init_sta ESP_MAXIMUM_RETRY E w)) as [[] | c | | |];
      cbn [is_step] in Hstep; try contradiction; auto.
    destruct (Hret eq_refl) as [_ Hup]. congruence.
  - intros HE.
    destruct (wifi_init_sta_returns ESP_MAXIMUM_RETRY E w HE)
      as (w' & -> & _).
    reflexivity.
Qed.

Lemma wifi_init_sta_returns_connected_witness :
  s_is_wifi_connected (snd (wifi_init_sta 5 env_up boot_world)) = true
  /\ (let E := mk_env (fun _ _ => ESP_OK) [link_down; link_down] 0 0 0 in
      fst (wifi_init_sta 5 E boot_world) = Blocked
      \/ fst (wifi_init_sta 5 E boot_world) = Aborted).
Proof.
  split.
  - destruct (wifi_init_sta_returns_connected 5 env_up boot_world)
      as (Hret & _ & Hok).
    apply Hret. apply Hok. exact env_up_ok.
  - apply (wifi_init_sta_returns_connected 5
             (mk_env (fun _ _ => ESP_OK) [link_down; link_down] 0 0 0)
             boot_world).
    reflexivity.
Defined.

(** ** [app_main] in two halves *)

Lemma bind_assoc_eq {A B C} (m : M A) (f : A -> M B) (g : B -> M C)
  (k : A -> M C) (w : world) :
  (forall a w1, k a w1 = bind (f a) g w1) ->
  bind m k w = bind (bind m f) g w.
Proof.
  intros H. unfold bind. destruct (m w) as [[a | c | | |] w1]; auto.
Qed.

Lemma app_main_split (max : Z) (MODE LOCATOR : string) (E : env) (w : world) :
  app_main max MODE LOCATOR E w
  = bind (app_main_boot max MODE E)
         (fun _ => app_main_from_gate MODE LOCATOR E) w.
Proof.
  unfold app_main, app_main_boot.
  do 10 (apply bind_assoc_eq; intros ? ?).
  unfold app_main_from_gate. reflexivity.
Qed.

Lemma quiet_app_main_boot (max : Z) (MODE : string) (E : env) :
  quiet is_step (app_main_boot max MODE E).
Proof.
  unfold app_main_boot. quiet_walk idtac.
  - apply quiet_wifi_init_sta.
  - intros w. destruct (s_is_wifi_connected w); now split.
  - apply quiet_act. intros w. unfold gpio_init, seq.
    now rewrite !session_calls_emit.
Qed.

Lemma is_valid_locator_eq (url : string) (w : world) :
  is_valid_locator url w
  = (locator_status url,
     if negb (locator_status url =? 0)
     then ESP_LOGE ("Regex match error: %s" ++ LF)
                   [ArgRegerror (locator_status url)] w
     else w).
Proof.
  unfold locator_status, is_valid_locator.
  now rewrite regcomp_locator_pattern.
Qed.

(** A locator that passes validation is not empty for [strcmp]. *)
Lemma locator_status_nonempty (url : string) :
  locator_status url = 0 -> (strcmp url EmptyString =? 0) = false.
Proof.
  rewrite locator_status_regexec. unfold regexec, strcmp.
  cbn [re_bol re_eol re_body]. rewrite (c_str_step url), strncmp_step.
  cbn [peek].
  destruct (Ascii.eqb_spec (peek url) NUL) as [E | Hne].
  - vm_compute. discriminate.
  - intros _. cbn [negb]. apply Z.eqb_neq. now apply uchar_diff_nonzero.
Qed.

Lemma bind_call {A B} (f : world -> A * world) (k : A -> M B) (w : world) :
  bind (call f) k w = k (fst (f w)) (snd (f w)).
Proof. unfold bind, call. now destruct (f w). Qed.

(** The second half of [app_main] with a locator that passes validation:
    the calls it adds and how it ends. *)
Lemma app_main_from_gate_valid (MODE LOCATOR : string) (E : env) (w : world) :
  locator_status LOCATOR = 0 ->
  let run := app_main_from_gate MODE LOCATOR E w in
  exists new,
    trace (snd run) = trace w ++ new
    /\ s_is_wifi_connected (snd run) = s_is_wifi_connected w
    /\ session_calls new = session_calls_made E
    /\ endpoints new
       = [(if strcmp MODE "client" =? 0
           then Z_CONFIG_CONNECT_KEY else Z_CONFIG_LISTEN_KEY, LOCATOR)]
    /\ fst run
       = if (z_open_result E <? 0) || (z_declare_subscriber_result E <? 0)
            || (z_declare_publisher_result E <? 0)
         then Exited (-1) else Idle.
Proof.
  intros Hvalid. cbv zeta. unfold app_main_from_gate, session_calls_made.
  rewrite bind_call, is_valid_locator_eq. cbn [fst snd].
  rewrite (locator_status_nonempty LOCATOR Hvalid), Hvalid.
  change (negb (0 =? 0)) with false. cbn [negb].
  destruct w as [c b r g t].
  destruct (strcmp MODE "client" =? 0),
           (z_open_result E <? 0),
           (z_declare_subscriber_result E <? 0),
           (z_declare_publisher_result E <? 0);
    cbv [bind act when ret exit idle ESP_LOGI ESP_LOGE emit orb fst snd
         trace s_is_wifi_connected s_event_group_handler s_retry_count
         gpio_level];
    repeat rewrite <- app_assoc; cbn [app];
    eexists; repeat split; reflexivity.
Qed.

Lemma call_ret_inv {A} (f : world -> A * world) (w w1 : world) (a : A) :
  call f w = (Ret a, w1) -> a = fst (f w) /\ w1 = snd (f w).
Proof. unfold call. destruct (f w) as [a0 w0]. now intros [= <- <-]. Qed.

(** The first half of [app_main], when it returns: the network is up and
    no endpoint has been inserted. *)
Lemma app_main_boot_ret_inv
  (max : Z) (MODE : string) (E : env) (w w' : world) (u : unit) :
  app_main_boot max MODE E w = (Ret u, w') ->
  s_is_wifi_connected w' = true
  /\ existsb is_link_up (wifi_events E) = true
  /\ endpoints (trace w') = endpoints (trace w).
Proof.
  unfold app_main_boot. intros H.
  apply bind_ret_inv in H as (? & w1 & H1 & H). apply act_ret_inv in H1.
  apply bind_ret_inv in H as (ret0 & w2 & H2 & H).
  apply call_ret_inv in H2 as [_ H2]. cbn [snd] in H2.
  apply bind_ret_inv in H as (ret1 & w3 & H3 & H).
  assert (H3' : endpoints (trace w3) = endpoints (trace w2)).
  { destruct ((ret0 =? ESP_ERR_NVS_NO_FREE_PAGES)
              || (ret0 =? ESP_ERR_NVS_NEW_VERSION_FOUND)).
    - apply bind_ret_inv in H3 as (? & w2' & Hc & H3).
      apply checked_ret_inv in Hc as [Hc _].
      apply call_ret_inv in H3 as [_ H3]. cbn [snd] in H3.
      now rewrite H3, Hc, !endpoints_emit.
    - unfold ret in H3. now injection H3 as _ <-. }
  apply bind_ret_inv in H as (? & w4 & H4 & H).
  assert (H4' : w4 = w3).
  { destruct (ret1 =? ESP_OK); [|discriminate].
    unfold ret in H4. now injection H4 as _ <-. }
  apply bind_ret_inv in H as (? & w5 & H5 & H). apply act_ret_inv in H5.
  apply bind_ret_inv in H as (? & w6 & H6 & H).
  apply wifi_init_sta_ret_inv in H6 as (Hconn & Hup & Hend).
  apply bind_ret_inv in H as (? & w7 & H7 & H).
  assert (H7' : w7 = w6).
  { rewrite Hconn in H7. unfold ret in H7. now injection H7 as _ <-. }
  apply bind_ret_inv in H as (? & w8 & H8 & H). apply act_ret_inv in H8.
  apply bind_ret_inv in H as (? & w9 & H9 & H). apply act_ret_inv in H9.
  apply bind_ret_inv in H as (? & w10 & H10 & H). apply act_ret_inv in H10.
  apply act_ret_inv in H.
  subst w' w10 w9 w8 w7 w5 w4 w2 w1.
  unfold gpio_init, seq, ESP_LOGI.
  split; [|split; [exact Hup|]].
  - now rewrite !connected_emit.
  - rewrite !endpoints_emit by reflexivity.
    rewrite Hend. unfold ESP_LOGI. rewrite endpoints_emit by reflexivity.
    rewrite H3'. now rewrite !endpoints_emit.
Qed.

(** With the libraries at their best the first half returns. *)
Lemma app_main_boot_returns (max : Z) (MODE : string) (E : env) (w : world) :
  env_ok E -> exists w', app_main_boot max MODE E w = (Ret tt, w').
Proof.
  intros HE. pose proof HE as [Hok _]. unfold app_main_boot.
  rewrite bind_act.
  rewrite (bind_returns _ _ _ (emit (ECall "nvs_flash_init") _) ESP_OK)
    by (unfold call; now rewrite Hok).
  change ((ESP_OK =? ESP_ERR_NVS_NO_FREE_PAGES)
          || (ESP_OK =? ESP_ERR_NVS_NEW_VERSION_FOUND)) with false.
  cbv iota.
  rewrite bind_ret. change (ESP_OK =? ESP_OK) with true. cbv iota.
  rewrite bind_ret, bind_act.
  match goal with
  | |- context [bind (wifi_init_sta _ _) _ ?w0] =>
      destruct (wifi_init_sta_returns max E w0 HE) as (w1 & Hwifi & Hconn)
  end.
  rewrite (bind_returns _ _ _ _ _ Hwifi).
  rewrite (bind_returns _ _ _ w1 tt) by now rewrite Hconn.
  do 3 rewrite bind_act.
  eexists. reflexivity.
Qed.

(** How [app_main] can end: in the first half without a return, or in the
    second half from a world the first half returned. *)
Lemma app_main_cases (max : Z) (MODE LOCATOR : string) (E : env) (w : world) :
  ((fst (app_main max MODE LOCATOR E w) = Aborted
    \/ fst (app_main max MODE LOCATOR E w) = Blocked)
   /\ session_calls (trace (snd (app_main max MODE LOCATOR E w)))
      = session_calls (trace w))
  \/ exists w1,
       app_main_boot max MODE E w = (Ret tt, w1)
       /\ app_main max MODE LOCATOR E w = app_main_from_gate MODE LOCATOR E w1
       /\ session_calls (trace w1) = session_calls (trace w).
Proof.
  rewrite app_main_split. unfold bind.
  destruct (quiet_app_main_boot max MODE E w) as [Htr Hstep].
  destruct (app_main_boot max MODE E w) as [[[] | c | | |] w1];
    cbn [fst snd is_step] in *; try contradiction.
  - right. now exists w1.
  - left. split; [now left | exact Htr].
  - left. split; [now right | exact Htr].
Qed.

Lemma session_ok_results (E : env) :
  (z_open_result E <? 0) || (z_declare_subscriber_result E <? 0)
  || (z_declare_publisher_result E <? 0) = false
  <-> session_ok E.
Proof.
  unfold session_ok. rewrite !orb_false_iff, !Z.ltb_ge. tauto.
Qed.

(** X9.  [app_main] reaches its idle loop only with the network up, a
    locator that passed validation and all three zenoh calls (open, declare
    subscriber, declare publisher) successful; with the libraries at their
    best these conditions are also enough. *)
Theorem app_main_idle
  (ESP_MAXIMUM_RETRY : Z) (MODE LOCATOR : string) (E : env) (w : world) :
  let run := app_main ESP_MAXIMUM_RETRY MODE LOCATOR E w in
  (fst run = Idle ->
   locator_status LOCATOR = 0
   /\ session_ok E
   /\ s_is_wifi_connected (snd run) = true
   /\ existsb is_link_up (wifi_events E) = true)
  /\ (env_ok E -> locator_status LOCATOR = 0 -> session_ok E ->
      fst run = Idle).
Proof.
  cbv zeta. split.
  - intros Hidle.
    assert (Hvalid : locator_status LOCATOR = 0).
    { destruct (Z.eq_dec (locator_status LOCATOR) 0) as [H0 | Hbad];
        [exact H0|].
      destruct (app_main_gate ESP_MAXIMUM_RETRY MODE LOCATOR E Hbad w)
        as [_ Hfail].
      rewrite Hidle in Hfail. contradiction. }
    destruct (app_main_cases ESP_MAXIMUM_RETRY MODE LOCATOR E w)
      as [[[Ho | Ho] _] | (w1 & Hboot & Hrun & _)]; try congruence.
    apply app_main_boot_ret_inv in Hboot as (Hconn & Hup & _).
    destruct (app_main_from_gate_valid MODE LOCATOR E w1 Hvalid)
      as (new & _ & Hflag & _ & _ & Hout).
    rewrite Hrun in *. rewrite Hflag.
    split; [exact Hvalid|]. split; [|split; assumption].
    apply session_ok_results.
    destruct ((z_open_result E <? 0) || (z_declare_subscriber_result E <? 0)
              || (z_declare_publisher_result E <? 0)); [congruence|].
    reflexivity.
  - intros HE Hvalid Hok.
    destruct (app_main_boot_returns ESP_MAXIMUM_RETRY MODE E w HE)
      as (w1 & Hboot).
    rewrite app_main_split, (bind_returns _ _ _ _ _ Hboot).
    destruct (app_main_from_gate_valid MODE LOCATOR E w1 Hvalid)
      as (new & _ & _ & _ & _ & Hout).
    rewrite Hout. apply session_ok_results in Hok. now rewrite Hok.
Qed.

Lemma app_main_idle_witness :
  fst (app_main 5 "client" "tcp/192.168.1.10:7447#iface=eth0"
                env_up boot_world) = Idle.
Proof.
  apply (app_main_idle 5 "client" "tcp/192.168.1.10:7447#iface=eth0"
                       env_up boot_world).
  - exact env_up_ok.
  - vm_compute. reflexivity.
  - unfold session_ok. cbn. lia.
Defined.

(** X10.  With a locator that passes validation [app_main] either stops in
    its first half (abort of a failed check, or the wait for the network)
    without a session call, or makes the session calls in the order open,
    declare subscriber, declare publisher, each only after the one before
    it succeeded: the first failing call is followed by [exit(-1)], and
    with none failing the idle loop is reached. *)
Theorem app_main_session_order
  (ESP_MAXIMUM_RETRY : Z) (MODE LOCATOR : string) (E : env) (w : world) :
  locator_status LOCATOR = 0 ->
  let run := app_main ESP_MAXIMUM_RETRY MODE LOCATOR E w in
  ((fst run = Aborted \/ fst run = Blocked)
   /\ session_calls (trace (snd run)) = session_calls (trace w))
  \/ (fst run
      = (if (z_open_result E <? 0) || (z_declare_subscriber_result E <? 0)
            || (z_declare_publisher_result E <? 0)
         then Exited (-1) else Idle)
      /\ session_calls (trace (snd run))
         = session_calls (trace w) ++ session_calls_made E).
Proof.
  intros Hvalid. cbv zeta.
  destruct (app_main_cases ESP_MAXIMUM_RETRY MODE LOCATOR E w)
    as [Hstop | (w1 & _ & Hrun & Htr)]; [now left|].
  right. rewrite Hrun.
  destruct (app_main_from_gate_valid MODE LOCATOR E w1 Hvalid)
    as (new & Hnew & _ & Hcalls & _ & Hout).
  split; [exact Hout|].
  rewrite Hnew. unfold session_calls at 1. rewrite filter_app.
  fold (session_calls (trace w1)). fold (session_calls new).
  now rewrite Htr, Hcalls.
Qed.

Lemma app_main_session_order_witness :
  let E := mk_env (fun _ _ => ESP_OK) [link_up] 0 (-1) 0 in
  let run := app_main 5 "client" "tcp/192.168.1.10:7447#iface=eth0"
                      E boot_world in
  fst run = Exited (-1)
  /\ session_calls (trace (snd run)) = [EOpen; EDeclareSubscriber KEYEXPR].
Proof.
  destruct (app_main_session_order 5 "client"
              "tcp/192.168.1.10:7447#iface=eth0"
              (mk_env (fun _ _ => ESP_OK) [link_up] 0 (-1) 0) boot_world)
    as [[[Ho | Ho] _] | [Hout Htr]];
    [vm_compute; reflexivity | vm_compute in Ho; discriminate
     | vm_compute in Ho; discriminate | ].
  split; [exact Hout | exact Htr].
Defined.

(** X11.  Whenever [app_main] gets past the validation it inserts the
    locator as an endpoint, once: as the connect endpoint when [MODE]
    compares equal to "client", as the listen endpoint otherwise.  No
    start-up reaches the session without an endpoint. *)
Theorem app_main_endpoint
  (ESP_MAXIMUM_RETRY : Z) (MODE LOCATOR : string) (E : env) (w : world) :
  locator_status LOCATOR = 0 ->
  let run := app_main ESP_MAXIMUM_RETRY MODE LOCATOR E w in
  fst run = Idle \/ fst run = Exited (-1) ->
  endpoints (trace (snd run))
  = endpoints (trace w)
    ++ [(if strcmp MODE "client" =? 0
         then Z_CONFIG_CONNECT_KEY else Z_CONFIG_LISTEN_KEY, LOCATOR)].
Proof.
  intros Hvalid. cbv zeta. intros Hout.
  destruct (app_main_cases ESP_MAXIMUM_RETRY MODE LOCATOR E w)
    as [[[Ho | Ho] _] | (w1 & Hboot & Hrun & _)];
    [destruct Hout; congruence | destruct Hout; congruence |].
  apply app_main_boot_ret_inv in Hboot as (_ & _ & Hend).
  destruct (app_main_from_gate_valid MODE LOCATOR E w1 Hvalid)
    as (new & Hnew & _ & _ & Hendp & _).
  now rewrite Hrun, Hnew, endpoints_app, Hend, Hendp.
Qed.

Lemma app_main_endpoint_witness :
  endpoints (trace (snd (app_main 5 "peer" "tcp/192.168.1.10:7447#iface=eth0"
                                  env_up boot_world)))
  = [(Z_CONFIG_LISTEN_KEY, "tcp/192.168.1.10:7447#iface=eth0")].
Proof.
  apply (app_main_endpoint 5 "peer" "tcp/192.168.1.10:7447#iface=eth0"
                           env_up boot_world).
  - vm_compute. reflexivity.
  - left. vm_compute. reflexivity.
Defined.

(* ================================================================== *)
(** * Further properties of the locator validator *)
(* ================================================================== *)

Lemma chars_all_app (P : ascii -> Prop) (a b : string) :
  chars_all P (a ++ b) <-> chars_all P a /\ chars_all P b.
Proof.
  unfold chars_all. rewrite list_ascii_of_string_app. apply Forall_app.
Qed.

Lemma chars_all_impl (P Q : ascii -> Prop) (s : string) :
  (forall c, P c -> Q c) -> chars_all P s -> chars_all Q s.
Proof. intros H. unfold chars_all. now apply Forall_impl. Qed.

Lemma string_length_app (a b : string) :
  String.length (a ++ b) = (String.length a + String.length b)%nat.
Proof.
  rewrite <- !list_ascii_of_string_length, list_ascii_of_string_app.
  apply length_app.
Qed.

Lemma spec_digit_locator_char (c : ascii) : spec_digit c -> locator_char c.
Proof. intros H. left. right. right. now left. Qed.

Lemma spec_port_length (s : string) :
  s <> EmptyString -> (1 <= String.length s)%nat.
Proof. destruct s; [congruence | cbn; lia]. Qed.

(** X12.  What the validator never accepts: a locator (a C string) that
    passes validation starts with "tcp/", has at least 21 characters, and
    holds nothing but letters, digits, underscore, hyphen and the
    separators [. : # / =].  So other protocols, host names with other
    characters, blanks and line ends are all rejected. *)
Theorem is_valid_locator_necessary (url : string) (w : world) :
  is_c_string url ->
  fst (is_valid_locator url w) = 0 ->
  (exists rest, url = ("tcp/" ++ rest)%string)
  /\ (21 <= String.length url)%nat
  /\ chars_all locator_char url.
Proof.
  intros Hc Hvalid.
  rewrite (proj1 (is_valid_locator_run url w)) in Hvalid.
  apply (locator_status_spec url Hc) in Hvalid
    as (o1 & o2 & o3 & o4 & port & iface
        & [Hl1 Ho1] & [Hl2 Ho2] & [Hl3 Ho3] & [Hl4 Ho4]
        & [Hp Hport] & [Hi Hiface] & ->).
  apply spec_port_length in Hp. apply spec_port_length in Hi.
  split; [|split].
  - eexists. reflexivity.
  - rewrite !string_length_app. cbn [String.length]. lia.
  - assert (Hlit : forall s,
               forallb (fun c => existsb (Ascii.eqb c)
                                   (list_ascii_of_string "tcp./:#=iface"))
                       (list_ascii_of_string s) = true ->
               chars_all locator_char s).
    { intros s Hs. unfold chars_all. apply Forall_forall. intros c Hin.
      rewrite forallb_forall in Hs. specialize (Hs c Hin).
      apply existsb_exists in Hs as (d & Hd & Hcd).
      apply Ascii.eqb_eq in Hcd. subst d.
      cbn in Hd. unfold locator_char, spec_iface_char, code_between.
      decompose [or] Hd; subst; cbn; try tauto;
        try (left; right; left; lia). }
    repeat (apply chars_all_app; split);
      try (apply Hlit; reflexivity);
      try (eapply chars_all_impl; [apply spec_digit_locator_char|];
           assumption).
    eapply chars_all_impl; [|exact Hiface]. intros c H. now left.
Qed.

Lemma is_valid_locator_necessary_witness :
  (exists rest, "tcp/10.0.0.1:7447#iface=docker0" = ("tcp/" ++ rest)%string)
  /\ (21 <= String.length "tcp/10.0.0.1:7447#iface=docker0")%nat
  /\ chars_all locator_char "tcp/10.0.0.1:7447#iface=docker0".
Proof.
  apply (is_valid_locator_necessary
           "tcp/10.0.0.1:7447#iface=docker0" boot_world).
  - apply is_c_string_forallb. reflexivity.
  - vm_compute. reflexivity.
Defined.
